(** * free-python-games: the [vector] class and the Flappy game loop

    A shallow embedding of [freegames/utils.py] (the function [floor]
    and the class [vector]) and of [freegames/flappy.py] (the tick
    function [draw], the handlers [tap] and [start]), followed by the
    properties of the freeze-on-hash discipline and of the game loop.

    Numbers.  A Python number is an [int] or a [float].  Integers are
    unbounded ([Z]) and their arithmetic is exact.  A float is a
    binary64 value: finite, infinite or nan.  What the arithmetic of
    floats returns is left to the platform (class [Builtins]): it
    rounds, it overflows to an infinity or raises [OverflowError], and
    nothing is assumed about it beyond three laws.  Comparisons and
    negation are exact and are defined here.  The square root of an
    integer taken by [__abs__] is kept exact, in symbolic form (type
    [magnitude]): the conversion of the integer to binary64, which
    rounds and which raises beyond the range of floats, is not
    modelled on that path. *)

From Stdlib Require Import ZArith QArith Qround Qabs Reals Qreals Lra.
From Stdlib Require Import List Bool Lia String.
From Stdlib Require Lqa.
Import ListNotations.

Module Utils.

Local Open Scope Z_scope.

(** ** Exceptions and results *)

Inductive exn : Type :=
| ValueError (msg : string)
| ZeroDivisionError
| IndexError
| TypeError
| OverflowError.

Inductive result (A : Type) : Type :=
| Ok (a : A)
| Raise (e : exn).
Arguments Ok {A} a.
Arguments Raise {A} e.

Definition and_then {A B} (r : result A) (k : A -> result B) : result B :=
  match r with
  | Ok a => k a
  | Raise e => Raise e
  end.

(** What an arithmetic builtin does: it returns, or it raises
    [OverflowError], or it raises [ValueError('math domain error')]. *)
Inductive outcome (A : Type) : Type :=
| Returns (a : A)
| Overflows
| OutOfDomain.
Arguments Returns {A} a.
Arguments Overflows {A}.
Arguments OutOfDomain {A}.

Definition raised {A} (o : outcome A) : result A :=
  match o with
  | Returns a => Ok a
  | Overflows => Raise OverflowError
  | OutOfDomain => Raise (ValueError "math domain error")
  end.

(** ** Python numbers *)

(** A binary64 value.  A finite one is a rational; which rationals are
    floats is the platform's business. *)
Inductive float64 : Type :=
| Finite (q : Q)
| Infinity (negative : bool)
| NaN.

Inductive number : Type :=
| Int (n : Z)
| Float (f : float64).

(** [-f]: exact. *)
Definition float_neg (f : float64) : float64 :=
  match f with
  | Finite q => Finite (- q)
  | Infinity negative => Infinity (negb negative)
  | NaN => NaN
  end.

(** The order of two floats; there is none when one is nan. *)
Definition float_compare (f g : float64) : option comparison :=
  match f, g with
  | NaN, _ | _, NaN => None
  | Finite p, Finite q => Some (Qcompare p q)
  | Infinity true, Infinity true => Some Eq
  | Infinity false, Infinity false => Some Eq
  | Infinity true, _ => Some Lt
  | Infinity false, _ => Some Gt
  | Finite _, Infinity true => Some Gt
  | Finite _, Infinity false => Some Lt
  end.

Definition float_is_zero (f : float64) : bool :=
  match f with
  | Finite q => Qeq_bool q 0
  | _ => false
  end.

(** The builtins the code calls: [hash] of a pair of numbers;
    [math.cos] and [math.sin] of an angle given in degrees (the source
    converts it to radians first, and both the conversion and the
    functions may raise); [repr] of a number; and the arithmetic of
    floats.  [float_of_int] is the conversion made by [float(n)] and
    by every operation between an int and a float; [int_truediv] is
    [m / n] for two ints, and both it and [float_truediv],
    [float_floordiv] are called with a divisor that is not zero;
    [float_square] is [f ** 2] and [float_sqrt] is [f ** 0.5];
    [float_round9] is [round(f, 9)].  Three laws are assumed: an int
    of at most 53 bits is converted exactly, a square does not depend
    on the sign, and a square of [2 ^ 1024] or more is beyond the
    floats. *)
Class Builtins : Type := {
  hash_pair : number -> number -> Z;
  cos_deg : number -> outcome float64;
  sin_deg : number -> outcome float64;
  repr_number : number -> string;
  float_of_int : Z -> outcome float64;
  float_add : float64 -> float64 -> float64;
  float_sub : float64 -> float64 -> float64;
  float_mul : float64 -> float64 -> float64;
  float_truediv : float64 -> float64 -> float64;
  int_truediv : Z -> Z -> outcome float64;
  float_floordiv : float64 -> float64 -> float64;
  float_square : float64 -> outcome float64;
  float_sqrt : float64 -> float64;
  float_round9 : float64 -> float64;
  float_of_int_exact :
    forall n, - 2 ^ 53 <= n <= 2 ^ 53 ->
      float_of_int n = Returns (Finite (inject_Z n));
  float_square_neg :
    forall f, float_square (float_neg f) = float_square f;
  float_square_overflow :
    forall q, (inject_Z (2 ^ 1024) <= q * q)%Q ->
      float_square (Finite q) = Overflows
}.

Section Arithmetic.

Context {builtins : Builtins}.

(** The float an operation between an int and a float works on. *)
Definition to_float (a : number) : result float64 :=
  match a with
  | Int n => raised (float_of_int n)
  | Float f => Ok f
  end.

Definition float_op (op : float64 -> float64 -> float64) (a b : number)
    : result number :=
  and_then (to_float a) (fun f =>
  and_then (to_float b) (fun g =>
  Ok (Float (op f g)))).

(** [a + b], [a - b], [a * b]: an integer, exactly, when both operands
    are; a float otherwise, once the int operand is converted. *)
Definition num_add (a b : number) : result number :=
  match a, b with
  | Int m, Int n => Ok (Int (m + n))
  | _, _ => float_op float_add a b
  end.

Definition num_sub (a b : number) : result number :=
  match a, b with
  | Int m, Int n => Ok (Int (m - n))
  | _, _ => float_op float_sub a b
  end.

Definition num_mul (a b : number) : result number :=
  match a, b with
  | Int m, Int n => Ok (Int (m * n))
  | _, _ => float_op float_mul a b
  end.

(** [-a]. *)
Definition num_neg (a : number) : number :=
  match a with
  | Int n => Int (- n)
  | Float f => Float (float_neg f)
  end.

(** [a / b] (true division): always a float.  Between ints a zero
    divisor is seen first; otherwise the operands are converted
    first. *)
Definition num_truediv (a b : number) : result number :=
  match a, b with
  | Int m, Int n =>
      if n =? 0 then Raise ZeroDivisionError
      else and_then (raised (int_truediv m n)) (fun f => Ok (Float f))
  | _, _ =>
      and_then (to_float a) (fun f =>
      and_then (to_float b) (fun g =>
      if float_is_zero g then Raise ZeroDivisionError
      else Ok (Float (float_truediv f g))))
  end.

(** [a // b] (floor division): an integer when both operands are. *)
Definition num_floordiv (a b : number) : result number :=
  match a, b with
  | Int m, Int n =>
      if n =? 0 then Raise ZeroDivisionError else Ok (Int (m / n))
  | _, _ =>
      and_then (to_float a) (fun f =>
      and_then (to_float b) (fun g =>
      if float_is_zero g then Raise ZeroDivisionError
      else Ok (Float (float_floordiv f g))))
  end.

(** [a ** 2]. *)
Definition num_square (a : number) : result number :=
  match a with
  | Int n => Ok (Int (n * n))
  | Float f => and_then (raised (float_square f)) (fun g => Ok (Float g))
  end.

(** [float(a)] *)
Definition float (a : number) : result number :=
  and_then (to_float a) (fun f => Ok (Float f)).

(** [round(a, 9)]: an int is returned as it is. *)
Definition round9 (a : number) : number :=
  match a with
  | Int n => Int n
  | Float f => Float (float_round9 f)
  end.

(** [floor(value, size, offset)]; [offset] defaults to 200. *)
Definition default_offset : number := Int 200.

Definition floor (value size offset : number) : result number :=
  and_then (num_add value offset) (fun shifted =>
  and_then (num_floordiv shifted size) (fun cells =>
  and_then (num_mul cells size) (fun scaled =>
  and_then (num_sub scaled offset) float))).

(** The value of [s ** 0.5]: the square root of an int, kept exact, or
    the float the platform computes from a float. *)
Inductive magnitude : Type :=
| Root (radicand : Z)
| Magnitude (f : float64).

Definition pow_half (s : number) : magnitude :=
  match s with
  | Int n => Root n
  | Float f => Magnitude (float_sqrt f)
  end.

End Arithmetic.

(** The value of a number in a comparison: Python compares an int and
    a float exactly. *)
Definition value_of (a : number) : float64 :=
  match a with
  | Int n => Finite (inject_Z n)
  | Float f => f
  end.

(** [a == b], [a != b], [a < b]. *)
Definition num_eqb (a b : number) : bool :=
  match float_compare (value_of a) (value_of b) with
  | Some Eq => true
  | _ => false
  end.

Definition num_neb (a b : number) : bool := negb (num_eqb a b).

Definition num_ltb (a b : number) : bool :=
  match float_compare (value_of a) (value_of b) with
  | Some Lt => true
  | _ => false
  end.

(** [r > k] for a magnitude [r] and an int [k].  A negative [k] is
    below every square root, otherwise the squares are compared. *)
Definition magnitude_gtb (r : magnitude) (k : Z) : bool :=
  match r with
  | Root n => (k <? 0) || (k * k <? n)
  | Magnitude f => num_ltb (Int k) (Float f)
  end.

(** The real number an exact root stands for. *)
Definition root_value (n : Z) : R := sqrt (IZR n).

(** ** The object state of a [vector]: its three slots *)

Record vector : Type := mkvector {
  _x : number;
  _y : number;
  _hash : option Z
}.

(** What may stand on the right of an arithmetic operator. *)
Inductive operand : Type :=
| Vec (w : vector)
| Scalar (n : number).

(** The result of a rich comparison method. *)
Inductive comparison_result : Type :=
| PyBool (b : bool)
| NotImplemented.

(** What may be compared with a vector by [==] and [!=]: a vector, a
    number, a string, [None], or an object of another class, given by
    what its own [__eq__] does when it is asked about a vector: what it
    answers or raises, and the state it leaves the vector in. *)
Inductive pyobject : Type :=
| PyVector (w : vector)
| PyNumber (n : number)
| PyStr (s : string)
| PyNone
| PyObject (reflected : vector -> result comparison_result * vector).

(** ** Computations on a state that may raise

    A computation receives a state and returns its result or the
    exception raised, together with the state afterwards.  The state is
    kept when an exception is raised: writes made before the [raise]
    stay, as they do on a Python object. *)

Definition stateful (S A : Type) : Type := S -> result A * S.

Definition ret {S A} (a : A) : stateful S A := fun s => (Ok a, s).

Definition bind {S A B} (m : stateful S A) (k : A -> stateful S B)
    : stateful S B :=
  fun s =>
    match m s with
    | (Ok a, s') => k a s'
    | (Raise e, s') => (Raise e, s')
    end.

Definition raise {S A} (e : exn) : stateful S A := fun s => (Raise e, s).

Definition lift {S A} (r : result A) : stateful S A := fun s => (r, s).

Definition getattr {S A} (slot : S -> A) : stateful S A :=
  fun s => (Ok (slot s), s).

(** A method of [vector]: the state is the one of [self]. *)
Definition method (A : Type) : Type := stateful vector A.

Definition put_x (value : number) : method unit :=
  fun self => (Ok tt, mkvector value (_y self) (_hash self)).

Definition put_y (value : number) : method unit :=
  fun self => (Ok tt, mkvector (_x self) value (_hash self)).

Definition put_hash (h : Z) : method unit :=
  fun self => (Ok tt, mkvector (_x self) (_y self) (Some h)).

Declare Scope stateful_scope.
Delimit Scope stateful_scope with stateful.
Notation "x <- m ;; k" := (bind m (fun x => k))
  (at level 61, m at next level, right associativity) : stateful_scope.
Notation "m ;; k" := (bind m (fun _ => k))
  (at level 61, right associativity) : stateful_scope.
Local Open Scope stateful_scope.

(** [obj.m(...)] for another object [obj] than [self]: the exception
    propagates, [self] is untouched, the result comes with the state of
    [obj] after the call. *)
Definition on_object {S A} (obj : vector) (m : method A)
    : stateful S (A * vector) :=
  match m obj with
  | (Ok a, obj') => ret (a, obj')
  | (Raise e, _) => raise e
  end.

Section Vector.

Context {builtins : Builtins}.

(** [vector(x, y)] *)
Definition __init__ (x y : number) : vector :=
  {| _x := x; _y := y; _hash := None |}.

(** property [x] *)
Definition x : method number :=
  v <- getattr _x ;; ret (round9 v).

Definition is_hashed (self : vector) : bool :=
  match _hash self with Some _ => true | None => false end.

(** [x.setter] *)
Definition x_setter (value : number) : method unit :=
  h <- getattr is_hashed ;;
  if h then raise (ValueError "cannot set x after hashing")
  else put_x value.

(** property [y] *)
Definition y : method number :=
  v <- getattr _y ;; ret (round9 v).

(** [y.setter] *)
Definition y_setter (value : number) : method unit :=
  h <- getattr is_hashed ;;
  if h then raise (ValueError "cannot set y after hashing")
  else put_y value.

Definition __hash__ : method Z :=
  cached <- getattr _hash ;;
  match cached with
  | Some h => ret h
  | None =>
      a <- x ;;
      b <- y ;;
      put_hash (hash_pair a b) ;;
      ret (hash_pair a b)
  end.

Definition __len__ : method Z := ret 2.

Definition __getitem__ (index : Z) : method number :=
  if index =? 0 then x
  else if index =? 1 then y
  else raise IndexError.

Definition copy : method vector :=
  a <- getattr _x ;;
  b <- getattr _y ;;
  ret (__init__ a b).

(** [isinstance(other, vector)] decides both comparisons. *)
Definition __eq__ (other : pyobject) : method comparison_result :=
  match other with
  | PyVector w =>
      a <- x ;;
      a2 <- on_object w x ;;
      if num_eqb a (fst a2) then
        b <- y ;;
        b2 <- on_object w y ;;
        ret (PyBool (num_eqb b (fst b2)))
      else ret (PyBool false)
  | _ => ret NotImplemented
  end.

Definition __ne__ (other : pyobject) : method comparison_result :=
  match other with
  | PyVector w =>
      a <- x ;;
      a2 <- on_object w x ;;
      if num_neb a (fst a2) then
        b <- y ;;
        b2 <- on_object w y ;;
        ret (PyBool (num_neb b (fst b2)))
      else ret (PyBool false)
  | _ => ret NotImplemented
  end.

(** The four augmented assignments have one shape: the guard on
    [_hash], then [self._x op= ...] and [self._y op= ...] in this order,
    with the components of a vector operand or twice the scalar.  They
    return [self]: the caller finds it in the state. *)
Definition augmented (msg : string) (op : number -> number -> result number)
    (other : operand) : method unit :=
  h <- getattr is_hashed ;;
  if h then raise (ValueError msg)
  else
    match other with
    | Vec w =>
        a <- getattr _x ;;
        a' <- lift (op a (_x w)) ;;
        put_x a' ;;
        b <- getattr _y ;;
        b' <- lift (op b (_y w)) ;;
        put_y b'
    | Scalar n =>
        a <- getattr _x ;;
        a' <- lift (op a n) ;;
        put_x a' ;;
        b <- getattr _y ;;
        b' <- lift (op b n) ;;
        put_y b'
    end.

(** The non-mutating operators: [copy = self.copy()], then the
    augmented assignment on [copy], whose result is returned. *)
Definition on_copy (m : method unit) : method vector :=
  c <- copy ;;
  r <- on_object c m ;;
  ret (snd r).

Definition __iadd__ : operand -> method unit :=
  augmented "cannot add vector after hashing" num_add.

Definition __add__ (other : operand) : method vector :=
  on_copy (__iadd__ other).

Definition __radd__ : operand -> method vector := __add__.

Definition move (other : operand) : method unit := __iadd__ other.

Definition __isub__ : operand -> method unit :=
  augmented "cannot subtract vector after hashing" num_sub.

Definition __sub__ (other : operand) : method vector :=
  on_copy (__isub__ other).

Definition __imul__ : operand -> method unit :=
  augmented "cannot multiply vector after hashing" num_mul.

Definition __mul__ (other : operand) : method vector :=
  on_copy (__imul__ other).

Definition __rmul__ : operand -> method vector := __mul__.

Definition scale (other : operand) : method unit := __imul__ other.

Definition __itruediv__ : operand -> method unit :=
  augmented "cannot divide vector after hashing" num_truediv.

Definition __truediv__ (other : operand) : method vector :=
  on_copy (__itruediv__ other).

(** [__neg__] writes the slots of the copy directly. *)
Definition __neg__ : method vector :=
  on_copy (a <- getattr _x ;;
           put_x (num_neg a) ;;
           b <- getattr _y ;;
           put_y (num_neg b)).

Definition __abs__ : method magnitude :=
  a <- getattr _x ;;
  a2 <- lift (num_square a) ;;
  b <- getattr _y ;;
  b2 <- lift (num_square b) ;;
  s <- lift (num_add a2 b2) ;;
  ret (pow_half s).

(** The new [_x] is computed and written before the new [_y] is
    computed. *)
Definition rotate (angle : number) : method unit :=
  h <- getattr is_hashed ;;
  if h then raise (ValueError "cannot rotate vector after hashing")
  else
    cosine <- lift (raised (cos_deg angle)) ;;
    sine <- lift (raised (sin_deg angle)) ;;
    a <- getattr _x ;;
    b <- getattr _y ;;
    ac <- lift (num_mul a (Float cosine)) ;;
    bs <- lift (num_mul b (Float sine)) ;;
    a' <- lift (num_sub ac bs) ;;
    put_x a' ;;
    bc <- lift (num_mul b (Float cosine)) ;;
    as' <- lift (num_mul a (Float sine)) ;;
    b' <- lift (num_add bc as') ;;
    put_y b'.

Definition __repr__ : method string :=
  a <- x ;;
  b <- y ;;
  ret ("vector(" ++ repr_number a ++ ", " ++ repr_number b ++ ")")%string.

(** ** The interface of the class, as one call

    Every method and property of the class, with its arguments, and the
    value a call returns.  The methods inherited from [Sequence] reach
    the vector through [__len__] and [__getitem__] only. *)
Inductive call : Type :=
| Get_x | Set_x (value : number)
| Get_y | Set_y (value : number)
| Hash | Len | Getitem (index : Z) | Copy
| Eq (other : pyobject) | Ne (other : pyobject)
| Iadd (other : operand) | Add (other : operand) | Radd (other : operand)
| Move (other : operand)
| Isub (other : operand) | Sub (other : operand)
| Imul (other : operand) | Mul (other : operand) | Rmul (other : operand)
| Scale (other : operand)
| Itruediv (other : operand) | Truediv (other : operand)
| Neg | Abs | Rotate (angle : number) | Repr.

Inductive value : Type :=
| VNone
| VSelf
| VInt (n : Z)
| VNumber (a : number)
| VMagnitude (r : magnitude)
| VVector (v : vector)
| VComparison (c : comparison_result)
| VStr (s : string).

Definition returning {A} (f : A -> value) (m : method A) : method value :=
  a <- m ;; ret (f a).

Definition perform (c : call) : method value :=
  match c with
  | Get_x => returning VNumber x
  | Set_x value => returning (fun _ => VNone) (x_setter value)
  | Get_y => returning VNumber y
  | Set_y value => returning (fun _ => VNone) (y_setter value)
  | Hash => returning VInt __hash__
  | Len => returning VInt __len__
  | Getitem index => returning VNumber (__getitem__ index)
  | Copy => returning VVector copy
  | Eq other => returning VComparison (__eq__ other)
  | Ne other => returning VComparison (__ne__ other)
  | Iadd other => returning (fun _ => VSelf) (__iadd__ other)
  | Add other => returning VVector (__add__ other)
  | Radd other => returning VVector (__radd__ other)
  | Move other => returning (fun _ => VNone) (move other)
  | Isub other => returning (fun _ => VSelf) (__isub__ other)
  | Sub other => returning VVector (__sub__ other)
  | Imul other => returning (fun _ => VSelf) (__imul__ other)
  | Mul other => returning VVector (__mul__ other)
  | Rmul other => returning VVector (__rmul__ other)
  | Scale other => returning (fun _ => VNone) (scale other)
  | Itruediv other => returning (fun _ => VSelf) (__itruediv__ other)
  | Truediv other => returning VVector (__truediv__ other)
  | Neg => returning VVector __neg__
  | Abs => returning VMagnitude __abs__
  | Rotate angle => returning (fun _ => VNone) (rotate angle)
  | Repr => returning VStr __repr__
  end.

(** The in-place mutations: the writes to [self] that the guard on
    [_hash] protects. *)
Inductive mutation : call -> Prop :=
| mut_set_x value : mutation (Set_x value)
| mut_set_y value : mutation (Set_y value)
| mut_iadd other : mutation (Iadd other)
| mut_move other : mutation (Move other)
| mut_isub other : mutation (Isub other)
| mut_imul other : mutation (Imul other)
| mut_scale other : mutation (Scale other)
| mut_itruediv other : mutation (Itruediv other)
| mut_rotate angle : mutation (Rotate angle).

(** The operators that work on a copy. *)
Inductive on_a_copy : call -> Prop :=
| oc_copy : on_a_copy Copy
| oc_add other : on_a_copy (Add other)
| oc_radd other : on_a_copy (Radd other)
| oc_sub other : on_a_copy (Sub other)
| oc_mul other : on_a_copy (Mul other)
| oc_rmul other : on_a_copy (Rmul other)
| oc_truediv other : on_a_copy (Truediv other)
| oc_neg : on_a_copy Neg.

(** [FrozenMutationError] of the specification is the [ValueError] the
    guards raise, known by its message. *)
Definition frozen_messages : list string :=
  ["cannot set x after hashing"; "cannot set y after hashing";
   "cannot add vector after hashing";
   "cannot subtract vector after hashing";
   "cannot multiply vector after hashing";
   "cannot divide vector after hashing";
   "cannot rotate vector after hashing"]%string.

Definition is_frozen_error {A} (r : result A) : bool :=
  match r with
  | Raise (ValueError msg) => existsb (String.eqb msg) frozen_messages
  | _ => false
  end.

Definition succeeds {A} (r : result A) : bool :=
  match r with
  | Ok _ => true
  | Raise _ => false
  end.

(** The errors of the arithmetic: a division by zero, a result or a
    conversion beyond the floats, an argument outside the domain of a
    function of [math]. *)
Definition arithmetic_error (e : exn) : bool :=
  match e with
  | ZeroDivisionError | OverflowError => true
  | ValueError msg => String.eqb msg "math domain error"
  | _ => false
  end.

(** A result, or one of these errors. *)
Definition at_worst_arithmetic {A} (r : result A) : bool :=
  match r with
  | Ok _ => true
  | Raise e => arithmetic_error e
  end.

(** A division meets a zero, an int or a float: in a component of a
    vector operand, or in the scalar. *)
Definition is_zero (a : number) : bool :=
  match a with
  | Int n => n =? 0
  | Float f => float_is_zero f
  end.

Definition zero_divisor (other : operand) : bool :=
  match other with
  | Vec w => is_zero (_x w) || is_zero (_y w)
  | Scalar n => is_zero n
  end.

(** The state of [self] after a series of calls, whatever each of them
    returned or raised. *)
Fixpoint perform_all (cs : list call) (self : vector) : vector :=
  match cs with
  | [] => self
  | c :: rest => perform_all rest (snd (perform c self))
  end.

(** What [other.__eq__(self)] does, for an operand that is not a
    vector: the numbers, the strings and [None] decline. *)
Definition reflected_eq (other : pyobject) : method comparison_result :=
  match other with
  | PyObject reflected => reflected
  | _ => ret NotImplemented
  end.

(** The interpreter's [self == other]: when [__eq__] returns
    [NotImplemented] the reflected method of the operand is tried;
    when it declines too the comparison falls back on identity, which
    is false for two different objects. *)
Definition equals (other : pyobject) : method bool :=
  r <- __eq__ other ;;
  match r with
  | PyBool b => ret b
  | NotImplemented =>
      r' <- reflected_eq other ;;
      match r' with
      | PyBool b => ret b
      | NotImplemented => ret false
      end
  end.

(** The cached hash, when there is one, is the hash of the pair of
    the components as they read now. *)
Definition coherent (self : vector) : Prop :=
  match _hash self with
  | None => True
  | Some h => h = hash_pair (round9 (_x self)) (round9 (_y self))
  end.

(** Numbers and operands that are [int]s. *)
Definition is_int (a : number) : bool :=
  match a with
  | Int _ => true
  | Float _ => false
  end.

Definition integral (other : operand) : bool :=
  match other with
  | Vec w => is_int (_x w) && is_int (_y w)
  | Scalar n => is_int n
  end.

(** Methods that leave [_hash] as it is, and methods that raise
    nothing but an error of the arithmetic. *)
Definition keeps_hash {A} (m : method A) : Prop :=
  forall v, _hash (snd (m v)) = _hash v.

Definition unguarded {A} (m : method A) : Prop :=
  forall v, at_worst_arithmetic (fst (m v)) = true.

(** What an operator takes from its operand for each component. *)
Definition operand_x (other : operand) : number :=
  match other with
  | Vec w => _x w
  | Scalar n => n
  end.

Definition operand_y (other : operand) : number :=
  match other with
  | Vec w => _y w
  | Scalar n => n
  end.

End Vector.

(** Builtins to run the methods on examples.  They are not the
    platform's: the arithmetic of finite floats is done without
    rounding and only a square overflows, an operation on an infinity or on
    nan gives nan, the square root is taken to eighteen decimal
    digits, and the cosine and sine are those of a quarter turn and of
    no turn.  The properties proved below hold for every instance. *)
Definition exact (op : Q -> Q -> Q) (f g : float64) : float64 :=
  match f, g with
  | Finite p, Finite q => Finite (Qred (op p q))
  | _, _ => NaN
  end.

Definition sample_hash (a : number) : Z :=
  match value_of a with
  | Finite q => Qfloor q
  | _ => 0
  end.

Definition sample_round9 (f : float64) : float64 :=
  match f with
  | Finite q =>
      Finite (Qred (Qfloor (q * 1000000000 + (1 # 2)) # 1000000000))
  | _ => f
  end.

Definition sample_sqrt (f : float64) : float64 :=
  match f with
  | Finite (n # d) =>
      if n <? 0 then NaN
      else Finite (Qred (Z.sqrt (n * Zpos d * 10 ^ 36) # (d * 10 ^ 18)))
  | Infinity _ => Infinity false
  | NaN => NaN
  end.

Definition sample_square (f : float64) : outcome float64 :=
  match f with
  | Finite q =>
      if Qle_bool (inject_Z (2 ^ 1024)) (q * q) then Overflows
      else Returns (Finite (Qred (q * q)))
  | Infinity _ => Returns (Infinity false)
  | NaN => Returns NaN
  end.

Definition sample_builtins : Builtins.
Proof.
  refine
    {| hash_pair := fun a b => sample_hash a + 31 * sample_hash b;
       cos_deg := fun angle =>
         Returns (Finite (if num_eqb angle (Int 90) then 0 else 1));
       sin_deg := fun angle =>
         Returns (Finite (if num_eqb angle (Int 90) then 1 else 0));
       repr_number := fun _ => EmptyString;
       float_of_int := fun n => Returns (Finite (inject_Z n));
       float_add := exact Qplus;
       float_sub := exact Qminus;
       float_mul := exact Qmult;
       float_truediv := exact Qdiv;
       int_truediv := fun m n =>
         Returns (Finite (Qred (inject_Z m / inject_Z n)));
       float_floordiv := exact (fun p q => inject_Z (Qfloor (p / q)));
       float_square := sample_square;
       float_sqrt := sample_sqrt;
       float_round9 := sample_round9 |}.
  - reflexivity.
  - intros [q|negative|]; try reflexivity.
    cbn [float_neg sample_square].
    assert (E : (- q * - q == q * q)%Q) by ring.
    rewrite (Qred_complete _ _ E).
    destruct (Qle_bool _ (q * q)) eqn:Hq.
    + apply Qle_bool_iff in Hq. rewrite <- E in Hq.
      apply Qle_bool_iff in Hq. now rewrite Hq.
    + destruct (Qle_bool _ (- q * - q)) eqn:Hq'; [|reflexivity].
      apply Qle_bool_iff in Hq'. rewrite E in Hq'.
      apply Qle_bool_iff in Hq'. congruence.
  - intros q Hq. cbn [sample_square].
    apply Qle_bool_iff in Hq. now rewrite Hq.
Defined.

End Utils.

Module Flappy.

Import Utils.
Local Open Scope Z_scope.
Local Open Scope list_scope.
Local Open Scope stateful_scope.

Section Game.

Context {builtins : Builtins}.

(** ** The platform: turtle graphics, the timer and the click binding *)

Inductive colour : Type := black | green | red.

(** The drawing calls a tick makes, in order. *)
Inductive turtle_call : Type :=
| clear
| goto (a b : number)
| dot (size : Z) (c : colour)
| update.

(** The function bound to the screen click by [onscreenclick]. *)
Inductive handler : Type := bound_start | bound_tap.

(** The module globals [bird] and [balls], and what the platform holds:
    the click binding, the delays of the pending [ontimer(draw, _)]
    calls, and the drawing calls made so far. *)
Record world : Type := mkworld {
  bird : vector;
  balls : list vector;
  onclick : handler;
  timers : list Z;
  screen : list turtle_call
}.

Definition action (A : Type) : Type := stateful world A.

(** Both results of [randrange] in one tick: [randrange(15)], and
    [randrange(-199, 199)], drawn only when the first is [0]. *)
Record dice : Type := mkdice {
  roll : Z;
  height : Z
}.

(** A method called on the global [bird]. *)
Definition on_bird {A} (m : method A) : action A :=
  fun w =>
    let (r, b) := m (bird w) in
    (r, mkworld b (balls w) (onclick w) (timers w) (screen w)).

(** [for ball in balls: ...], the body a method called on [ball] that
    updates the loop variable [acc]; an exception ends the loop. *)
Fixpoint for_in {A} (body : A -> method A) (acc : A) (l : list vector)
    : result A * list vector :=
  match l with
  | [] => (Ok acc, [])
  | ball :: rest =>
      match body acc ball with
      | (Ok acc', ball') =>
          let (r, rest') := for_in body acc' rest in (r, ball' :: rest')
      | (Raise e, ball') => (Raise e, ball' :: rest)
      end
  end.

Definition for_ball_in_balls {A} (body : A -> method A) (acc : A) : action A :=
  fun w =>
    let (r, l) := for_in body acc (balls w) in
    (r, mkworld (bird w) l (onclick w) (timers w) (screen w)).

Definition balls_append (ball : vector) : action unit :=
  fun w =>
    (Ok tt, mkworld (bird w) (balls w ++ [ball]) (onclick w) (timers w)
              (screen w)).

(** [balls.pop(0)] *)
Definition balls_pop0 : action unit :=
  fun w =>
    (Ok tt, mkworld (bird w) (tl (balls w)) (onclick w) (timers w)
              (screen w)).

Definition turtle (calls : list turtle_call) : action unit :=
  fun w =>
    (Ok tt, mkworld (bird w) (balls w) (onclick w) (timers w)
              (screen w ++ calls)).

(** [ontimer(draw, ms)] *)
Definition ontimer_draw (ms : Z) : action unit :=
  fun w =>
    (Ok tt, mkworld (bird w) (balls w) (onclick w) (timers w ++ [ms])
              (screen w)).

Definition onscreenclick (h : handler) : action unit :=
  fun w =>
    (Ok tt, mkworld (bird w) (balls w) h (timers w) (screen w)).

(** ** The game *)

Definition tap (cx cy : number) : action unit :=
  let up := __init__ (Int 0) (Int 30) in
  on_bird (move (Vec up)).

Definition inside : method bool :=
  a <- x ;;
  if num_ltb (Int (-200)) a && num_ltb a (Int 200) then
    b <- y ;;
    ret (num_ltb (Int (-200)) b && num_ltb b (Int 200))
  else ret false.

(** Lines 27 to 35 of [draw]: the bird falls, the balls drift, a ball
    is spawned one tick in fifteen. *)
Definition move_and_spawn (d : dice) : action unit :=
  on_bird (b <- y ;; b' <- lift (num_sub b (Int 5)) ;; y_setter b') ;;
  for_ball_in_balls
    (fun _ => a <- x ;; a' <- lift (num_sub a (Int 3)) ;; x_setter a') tt ;;
  if roll d =? 0 then
    let ball := __init__ (Int 199) (Int (height d)) in
    balls_append ball
  else ret tt.

(** Lines 37 to 41: [alive]. *)
Definition survey : action bool :=
  alive <- on_bird inside ;;
  b <- getattr bird ;;
  for_ball_in_balls
    (fun alive =>
       diff <- __sub__ (Vec b) ;;
       r <- on_object diff __abs__ ;;
       let dodge := magnitude_gtb (fst r) 15 in
       ret (alive && dodge))
    alive.

(** Lines 43 and 44. *)
Definition evict : action unit :=
  n <- getattr (fun w => Z.of_nat (List.length (balls w))) ;;
  if 30 <? n then balls_pop0 else ret tt.

(** Lines 46 to 59: the frame.  The calls made for the balls are
    gathered by the loop and sent to the screen in the same order. *)
Definition render (alive : bool) : action unit :=
  turtle [clear] ;;
  calls <- for_ball_in_balls
             (fun calls =>
                a <- x ;;
                b <- y ;;
                ret (calls ++ [goto a b; dot 20 black]))
             [] ;;
  turtle calls ;;
  a <- on_bird x ;;
  b <- on_bird y ;;
  turtle [goto a b] ;;
  (if alive then turtle [dot 10 green] else turtle [dot 10 red]) ;;
  turtle [update].

(** Lines 61 and 62. *)
Definition reschedule (alive : bool) : action unit :=
  if alive then ontimer_draw 50 else ret tt.

Definition draw (d : dice) : action unit :=
  move_and_spawn d ;;
  alive <- survey ;;
  evict ;;
  render alive ;;
  reschedule alive.

Definition start (cx cy : number) (d : dice) : action unit :=
  draw d ;;
  onscreenclick bound_tap.

(** The module body: [bird], [balls], and [onscreenclick(start)]. *)
Definition initial : world :=
  {| bird := __init__ (Int 0) (Int 0);
     balls := [];
     onclick := bound_start;
     timers := [];
     screen := [] |}.

(** ** The event loop

    The platform calls back on a click and when a timer expires.  A
    timer expires only if one is pending; it is then removed, and
    [draw] runs with the random draws of that tick. *)
Inductive event : Type :=
| click (cx cy : number)
| timeout.

Definition pop_timer : action bool :=
  fun w =>
    match timers w with
    | [] => (Ok false, w)
    | _ :: rest =>
        (Ok true, mkworld (bird w) (balls w) (onclick w) rest (screen w))
    end.

Definition deliver (d : dice) (e : event) : action unit :=
  match e with
  | click cx cy =>
      h <- getattr onclick ;;
      match h with
      | bound_start => start cx cy d
      | bound_tap => tap cx cy
      end
  | timeout =>
      due <- pop_timer ;;
      if due then draw d else ret tt
  end.

(** A session: the events in order, each with the draws of its tick.
    An exception that escapes a callback ends the session. *)
Fixpoint run (inputs : list (dice * event)) : action unit :=
  match inputs with
  | [] => ret tt
  | (d, e) :: rest => deliver d e ;; run rest
  end.

(** Whether an event makes [draw] run, and the heights of the balls
    spawned during a session, in order. *)
Definition ticks (e : event) (w : world) : bool :=
  match e with
  | click _ _ =>
      match onclick w with bound_start => true | bound_tap => false end
  | timeout => match timers w with [] => false | _ :: _ => true end
  end.

Fixpoint spawned (inputs : list (dice * event)) (w : world) : list Z :=
  match inputs with
  | [] => []
  | (d, e) :: rest =>
      (if ticks e w && (roll d =? 0) then [height d] else [])
      ++ spawned rest (snd (deliver d e w))
  end.

(** ** The game on integer positions

    Every number the game makes is an [int]: the literals, the results
    of [randrange], and sums and differences of these.  A [board] holds
    the positions as pairs of integers, and [world_of] is the world
    whose vectors have these components and were never hashed. *)
Record board : Type := mkboard {
  bird_at : Z * Z;
  balls_at : list (Z * Z)
}.

Definition vector_at (p : Z * Z) : vector :=
  __init__ (Int (fst p)) (Int (snd p)).

Definition world_of (b : board) (h : handler) (t : list Z)
    (s : list turtle_call) : world :=
  {| bird := vector_at (bird_at b);
     balls := map vector_at (balls_at b);
     onclick := h;
     timers := t;
     screen := s |}.

Definition fall (p : Z * Z) : Z * Z := (fst p, snd p - 5).
Definition drift (p : Z * Z) : Z * Z := (fst p - 3, snd p).
Definition rise (p : Z * Z) : Z * Z := (fst p, snd p + 30).

Definition spawn (d : dice) : list (Z * Z) :=
  if roll d =? 0 then [(199, height d)] else [].

(** The board after the move and spawn steps of a tick. *)
Definition moved (d : dice) (b : board) : board :=
  {| bird_at := fall (bird_at b);
     balls_at := map drift (balls_at b) ++ spawn d |}.

Definition evict_oldest {A} (l : list A) : list A :=
  if 30 <? Z.of_nat (List.length l) then tl l else l.

(** The board at the end of a tick. *)
Definition ticked (d : dice) (b : board) : board :=
  {| bird_at := bird_at (moved d b);
     balls_at := evict_oldest (balls_at (moved d b)) |}.

Definition strictly_inside (p : Z * Z) : Prop :=
  (-200 < fst p < 200) /\ (-200 < snd p < 200).

Definition squared_distance (p q : Z * Z) : Z :=
  (fst p - fst q) * (fst p - fst q) + (snd p - snd q) * (snd p - snd q).

(** The Euclidean distance between two positions. *)
Definition distance (p q : Z * Z) : R := sqrt (IZR (squared_distance p q)).

Definition safe (b : board) : bool :=
  ((-200 <? fst (bird_at b)) && (fst (bird_at b) <? 200)) &&
  ((-200 <? snd (bird_at b)) && (snd (bird_at b) <? 200)) &&
  forallb (fun p => 15 * 15 <? squared_distance p (bird_at b)) (balls_at b).

(** The drawing calls of one frame. *)
Definition frame (alive : bool) (b : board) : list turtle_call :=
  [clear]
  ++ flat_map (fun p => [goto (Int (fst p)) (Int (snd p)); dot 20 black])
       (balls_at b)
  ++ [goto (Int (fst (bird_at b))) (Int (snd (bird_at b)));
      dot 10 (if alive then green else red);
      update].

(** The last [n] elements of a list. *)
Definition lastn {A} (n : nat) (l : list A) : list A :=
  skipn (List.length l - n) l.

(** Draws that spawn a ball at height [h], and draws that spawn none. *)
Definition spawning (h : Z) : dice := {| roll := 0; height := h |}.
Definition quiet : dice := {| roll := 1; height := 0 |}.

(** Two sessions.  In the first a ball is spawned on each of the first
    thirty-one ticks, at heights 0 to 30.  In the second no ball is
    spawned and the bird is left to fall: the fortieth tick finds it on
    the lower edge. *)
Definition thirty_one_spawns : list (dice * event) :=
  (spawning 0, click (Int 0) (Int 0))
  :: map (fun k => (spawning (Z.of_nat k), timeout)) (seq 1 30).

Definition fallen : world :=
  snd (run ((quiet, click (Int 0) (Int 0)) :: repeat (quiet, timeout) 39)
         initial).

(** The loop is running when a tick is pending, ended when the game
    was started and no tick is pending. *)
Definition running (w : world) : Prop :=
  onclick w = bound_tap /\ timers w <> [].

Definition ended (w : world) : Prop :=
  onclick w = bound_tap /\ timers w = [].

(** The world after one event, on integer positions. *)
Definition step_board (d : dice) (e : event) (b : board) (h : handler)
    (t : list Z) (s : list turtle_call) : world :=
  let sched := if safe (moved d b) then [50] else [] in
  let fr := frame (safe (moved d b)) (ticked d b) in
  match e with
  | click _ _ =>
      match h with
      | bound_start => world_of (ticked d b) bound_tap (t ++ sched) (s ++ fr)
      | bound_tap =>
          world_of (mkboard (rise (bird_at b)) (balls_at b)) bound_tap t s
      end
  | timeout =>
      match t with
      | [] => world_of b h t s
      | _ :: rest => world_of (ticked d b) h (rest ++ sched) (s ++ fr)
      end
  end.

(** Whether an event makes [tap] run, and how many events of a session
    made [draw] run and made [tap] run. *)
Definition taps (e : event) (w : world) : bool :=
  match e with
  | click _ _ =>
      match onclick w with bound_start => false | bound_tap => true end
  | timeout => false
  end.

Fixpoint tick_count (inputs : list (dice * event)) (w : world) : Z :=
  match inputs with
  | [] => 0
  | (d, e) :: rest =>
      (if ticks e w then 1 else 0) + tick_count rest (snd (deliver d e w))
  end.

Fixpoint tap_count (inputs : list (dice * event)) (w : world) : Z :=
  match inputs with
  | [] => 0
  | (d, e) :: rest =>
      (if taps e w then 1 else 0) + tap_count rest (snd (deliver d e w))
  end.

(** A list of integers in strictly increasing order. *)
Fixpoint increasing (l : list Z) : Prop :=
  match l with
  | a :: rest =>
      match rest with
      | b :: _ => a < b /\ increasing rest
      | [] => True
      end
  | [] => True
  end.

(** The session of a player who clicks once and then lets the timer
    run, with the draws of each tick. *)
Definition left_alone (d0 : dice) (ds : list dice) : list (dice * event) :=
  (d0, click (Int 0) (Int 0)) :: map (fun d => (d, timeout)) ds.

End Game.

End Flappy.

(** * Properties *)

Import Utils Flappy.
Local Open Scope Z_scope.
Local Open Scope list_scope.

(** The closed examples run on the sample builtins. *)
#[local] Existing Instance sample_builtins.

(** ** Computations *)

Lemma bind_Ok {S A B} (m : stateful S A) (k : A -> stateful S B) s a s' :
  m s = (Ok a, s') -> bind m k s = k a s'.
Proof. unfold bind. now intros ->. Qed.

Lemma bind_Raise {S A B} (m : stateful S A) (k : A -> stateful S B) s e s' :
  m s = (Raise e, s') -> bind m k s = (Raise e, s').
Proof. unfold bind. now intros ->. Qed.

Lemma on_object_self {S A} (obj : vector) (m : method A) (s : S) :
  snd (on_object obj m s) = s.
Proof. unfold on_object. destruct (m obj) as [[a|e] obj']; reflexivity. Qed.

(** ** Numbers *)

Lemma num_ltb_Int m n : num_ltb (Int m) (Int n) = (m <? n).
Proof.
  unfold num_ltb, float_compare, value_of, Qcompare, Z.ltb. cbn.
  now rewrite !Z.mul_1_r.
Qed.

Lemma dodge_Int n : magnitude_gtb (Root n) 15 = (15 * 15 <? n).
Proof. reflexivity. Qed.

Lemma is_int_Int a : is_int a = true -> exists n, a = Int n.
Proof. destruct a; [eauto | discriminate]. Qed.

Section NumberFacts.

Context {B : Builtins}.

(** An error of the arithmetic is not the error of the guards. *)
Lemma arithmetic_not_frozen {A} (r : result A) :
  at_worst_arithmetic r = true -> is_frozen_error r = false.
Proof.
  destruct r as [a|[msg| | | |]]; try reflexivity; try discriminate.
  cbn. intros H. apply String.eqb_eq in H. now subst msg.
Qed.

(** What the arithmetic raises is an error of the arithmetic. *)
Lemma raised_arithmetic {A} (o : outcome A) :
  at_worst_arithmetic (raised o) = true.
Proof. destruct o; reflexivity. Qed.

Lemma and_then_arithmetic {A C} (r : result A) (k : A -> result C) :
  at_worst_arithmetic r = true ->
  (forall a, at_worst_arithmetic (k a) = true) ->
  at_worst_arithmetic (and_then r k) = true.
Proof. destruct r as [a|e]; cbn; auto. Qed.

Lemma to_float_arithmetic a : at_worst_arithmetic (to_float a) = true.
Proof. destruct a; [apply raised_arithmetic | reflexivity]. Qed.

Lemma float_op_arithmetic op a b :
  at_worst_arithmetic (float_op op a b) = true.
Proof.
  unfold float_op.
  apply and_then_arithmetic; [apply to_float_arithmetic|]. intros f.
  apply and_then_arithmetic; [apply to_float_arithmetic|]. reflexivity.
Qed.

Lemma num_add_arithmetic a b : at_worst_arithmetic (num_add a b) = true.
Proof.
  destruct a, b; try apply float_op_arithmetic. reflexivity.
Qed.

Lemma num_sub_arithmetic a b : at_worst_arithmetic (num_sub a b) = true.
Proof.
  destruct a, b; try apply float_op_arithmetic. reflexivity.
Qed.

Lemma num_mul_arithmetic a b : at_worst_arithmetic (num_mul a b) = true.
Proof.
  destruct a, b; try apply float_op_arithmetic. reflexivity.
Qed.

Lemma float_truediv_arithmetic a b :
  at_worst_arithmetic
    (and_then (to_float a) (fun f =>
     and_then (to_float b) (fun g =>
     if float_is_zero g then Raise ZeroDivisionError
     else Ok (Float (float_truediv f g))))) = true.
Proof.
  apply and_then_arithmetic; [apply to_float_arithmetic|]. intros f.
  apply and_then_arithmetic; [apply to_float_arithmetic|]. intros g.
  now destruct (float_is_zero g).
Qed.

Lemma num_truediv_arithmetic a b :
  at_worst_arithmetic (num_truediv a b) = true.
Proof.
  destruct a as [m|f], b as [n|g]; try apply float_truediv_arithmetic.
  cbn. destruct (n =? 0); [reflexivity|].
  apply and_then_arithmetic; [apply raised_arithmetic | reflexivity].
Qed.

(** Between ints the three exact operations return. *)
Lemma int_op_returns a b :
  is_int a = true -> is_int b = true ->
  (exists c, num_add a b = Ok c /\ is_int c = true) /\
  (exists c, num_sub a b = Ok c /\ is_int c = true) /\
  (exists c, num_mul a b = Ok c /\ is_int c = true).
Proof.
  destruct a, b; try discriminate. intros _ _. cbn.
  repeat split; eexists; split; reflexivity.
Qed.

(** A division by zero fails. *)
Lemma num_truediv_by_zero a b :
  is_zero b = true -> succeeds (num_truediv a b) = false.
Proof.
  intros Hb. destruct b as [n|g]; cbn [is_zero] in Hb.
  - apply Z.eqb_eq in Hb. subst n. destruct a as [m|f]; [reflexivity|].
    cbn. rewrite float_of_int_exact by lia. reflexivity.
  - destruct a as [m|f]; cbn; [|now rewrite Hb].
    destruct (float_of_int m); cbn; [now rewrite Hb | reflexivity ..].
Qed.

End NumberFacts.

(** ** The class [vector] *)

Section VectorFacts.

Context {B : Builtins}.

Lemma keeps_hash_bind {A C} (m : method A) (k : A -> method C) :
  keeps_hash m -> (forall a, keeps_hash (k a)) -> keeps_hash (bind m k).
Proof.
  intros Hm Hk v. unfold bind. specialize (Hm v).
  destruct (m v) as [[a|e] v']; cbn in *; [|exact Hm].
  now rewrite Hk.
Qed.

Lemma unguarded_bind {A C} (m : method A) (k : A -> method C) :
  unguarded m -> (forall a, unguarded (k a)) -> unguarded (bind m k).
Proof.
  intros Hm Hk v. unfold bind. specialize (Hm v).
  destruct (m v) as [[a|e] v']; cbn in *; [apply Hk | exact Hm].
Qed.

Lemma keeps_hash_lift {A} (r : result A) : keeps_hash (lift r).
Proof. intros v. reflexivity. Qed.

Lemma unguarded_lift {A} (r : result A) :
  at_worst_arithmetic r = true -> unguarded (lift r).
Proof. intros H v. exact H. Qed.

Ltac plain_method :=
  repeat first
    [ apply keeps_hash_bind | apply unguarded_bind
    | apply keeps_hash_lift | apply unguarded_lift
    | apply num_add_arithmetic | apply num_sub_arithmetic
    | apply num_mul_arithmetic | apply num_truediv_arithmetic
    | apply raised_arithmetic
    | intro ];
  try reflexivity.

(** An augmented assignment on a frozen receiver: the guard raises
    before any write. *)
Lemma augmented_frozen msg op other v :
  is_hashed v = true ->
  augmented msg op other v = (Raise (ValueError msg), v).
Proof.
  intros Hv. unfold augmented, bind, getattr. rewrite Hv. reflexivity.
Qed.

(** On a receiver that is not frozen: the first component is computed
    and written, then the second. *)
Lemma augmented_unfrozen msg op other v :
  is_hashed v = false ->
  augmented msg op other v =
  match op (_x v) (operand_x other) with
  | Raise e => (Raise e, v)
  | Ok a =>
      match op (_y v) (operand_y other) with
      | Raise e => (Raise e, mkvector a (_y v) None)
      | Ok b => (Ok tt, mkvector a b None)
      end
  end.
Proof.
  intros Hv. destruct v as [a b [h|]]; [discriminate | clear Hv].
  destruct other as [w|n]; cbn [operand_x operand_y _x _y];
    unfold augmented, bind, getattr, lift, put_x, put_y, raise, is_hashed;
    cbn [_x _y _hash].
  - destruct (op a (_x w)); [destruct (op b (_y w))|]; reflexivity.
  - destruct (op a n); [destruct (op b n)|]; reflexivity.
Qed.

Lemma augmented_hash msg op other v :
  _hash (snd (augmented msg op other v)) = _hash v.
Proof.
  destruct (is_hashed v) eqn:Hv.
  - now rewrite augmented_frozen.
  - rewrite augmented_unfrozen by exact Hv.
    unfold is_hashed in Hv. destruct (_hash v) eqn:Eh; [discriminate|].
    destruct (op _ _); [destruct (op _ _)|]; cbn; congruence.
Qed.

Lemma augmented_unguarded msg op other v :
  is_hashed v = false ->
  (forall a b, at_worst_arithmetic (op a b) = true) ->
  at_worst_arithmetic (fst (augmented msg op other v)) = true.
Proof.
  intros Hv Hop. rewrite augmented_unfrozen by exact Hv.
  pose proof (Hop (_x v) (operand_x other)) as H1.
  pose proof (Hop (_y v) (operand_y other)) as H2.
  destruct (op _ _); [destruct (op _ _)|]; cbn; auto.
Qed.

(** Between ints the exact operators return. *)
Lemma augmented_int msg op other v :
  is_hashed v = false ->
  (forall a b, is_int a = true -> is_int b = true ->
     exists c, op a b = Ok c /\ is_int c = true) ->
  is_int (_x v) = true -> is_int (_y v) = true -> integral other = true ->
  fst (augmented msg op other v) = Ok tt.
Proof.
  intros Hv Hop Hx Hy Ho. rewrite augmented_unfrozen by exact Hv.
  assert (is_int (operand_x other) = true /\ is_int (operand_y other) = true)
    as [Hox Hoy].
  { destruct other; cbn in *; [now apply andb_true_iff | auto]. }
  destruct (Hop _ _ Hx Hox) as [a [-> _]].
  destruct (Hop _ _ Hy Hoy) as [b [-> _]]. reflexivity.
Qed.

(** A guarded method: the guard, then the body. *)
Lemma guarded_frozen {A} msg (body : method A) v :
  is_hashed v = true ->
  (h <- getattr is_hashed ;;
   if h then raise (ValueError msg) else body)%stateful v =
  (Raise (ValueError msg), v).
Proof. intros Hv. unfold bind, getattr. rewrite Hv. reflexivity. Qed.

Lemma guarded_unfrozen {A} msg (body : method A) v :
  is_hashed v = false ->
  (h <- getattr is_hashed ;;
   if h then raise (ValueError msg) else body)%stateful v = body v.
Proof. intros Hv. unfold bind, getattr. rewrite Hv. reflexivity. Qed.

Lemma guarded_hash {A} msg (body : method A) :
  keeps_hash body ->
  keeps_hash (h <- getattr is_hashed ;;
              if h then raise (ValueError msg) else body)%stateful.
Proof.
  intros Hb v. destruct (is_hashed v) eqn:Hv.
  - now rewrite guarded_frozen.
  - rewrite guarded_unfrozen by exact Hv. apply Hb.
Qed.

Lemma rotate_frozen angle v :
  is_hashed v = true ->
  rotate angle v =
  (Raise (ValueError "cannot rotate vector after hashing"), v).
Proof. apply guarded_frozen. Qed.

Lemma rotate_hash angle v : _hash (snd (rotate angle v)) = _hash v.
Proof. revert v. apply guarded_hash. plain_method. Qed.


Lemma on_copy_self m v : snd (on_copy m v) = v.
Proof.
  unfold on_copy, copy, bind, getattr, ret, on_object; cbn.
  destruct (m _) as [[a|e] c]; reflexivity.
Qed.

(** An operator on a copy returns what its body leaves of a fresh
    vector with the same components, or raises what the body raises. *)
Lemma on_copy_result m v :
  fst (on_copy m v) =
  match m (__init__ (_x v) (_y v)) with
  | (Ok _, c) => Ok c
  | (Raise e, _) => Raise e
  end.
Proof.
  unfold on_copy, copy, bind, getattr, ret, on_object; cbn.
  destruct (m _) as [[a|e] c]; reflexivity.
Qed.

Lemma on_copy_fresh m v :
  fst (on_copy m v) = fst (on_copy m (__init__ (_x v) (_y v))).
Proof. now rewrite !on_copy_result. Qed.

Lemma comparison_self other v :
  snd (__eq__ other v) = v /\ snd (__ne__ other v) = v.
Proof.
  destruct other as [w| | | |r]; split; try reflexivity;
    unfold __eq__, __ne__, x, y, bind, getattr, ret, on_object; cbn;
    match goal with |- context [if ?c then _ else _] => destruct c end;
    reflexivity.
Qed.

Lemma returning_state {A} (f : A -> value) (m : method A) v :
  snd (returning f m v) = snd (m v).
Proof.
  unfold returning, bind, ret. destruct (m v) as [[a|e] s]; reflexivity.
Qed.

Lemma returning_result {A} (f : A -> value) (m : method A) v :
  fst (returning f m v) =
  match fst (m v) with Ok a => Ok (f a) | Raise e => Raise e end.
Proof.
  unfold returning, bind, ret. destruct (m v) as [[a|e] s]; reflexivity.
Qed.

Lemma returning_arithmetic {A} (f : A -> value) (m : method A) v :
  at_worst_arithmetic (fst (returning f m v)) =
  at_worst_arithmetic (fst (m v)).
Proof. rewrite returning_result. now destruct (fst (m v)). Qed.

Lemma returning_succeeds {A} (f : A -> value) (m : method A) v :
  succeeds (fst (returning f m v)) = succeeds (fst (m v)).
Proof. rewrite returning_result. now destruct (fst (m v)). Qed.

Lemma abs_self v : snd (__abs__ v) = v.
Proof.
  unfold __abs__, bind, getattr, lift, ret. cbn.
  destruct (num_square (_x v)); cbn; [|reflexivity].
  destruct (num_square (_y v)); cbn; [|reflexivity].
  destruct (num_add _ _); reflexivity.
Qed.

(** Every call keeps the slot [_hash], except the first [hash]. *)
Lemma perform_hash c v :
  _hash (snd (perform c v)) = _hash v \/ (c = Hash /\ _hash v = None).
Proof.
  destruct c; cbn [perform]; rewrite returning_state;
    unfold __radd__, __rmul__;
    unfold __add__, __sub__, __mul__, __truediv__, __neg__, __getitem__,
      move, scale, __iadd__, __isub__, __imul__, __itruediv__;
    rewrite ?on_copy_self, ?augmented_hash, ?rotate_hash, ?abs_self,
      ?(proj1 (comparison_self _ _)), ?(proj2 (comparison_self _ _));
    auto.
  all: destruct v as [a b [h|]]; cbn; auto.
  all: repeat match goal with
             | |- context [?i =? ?k] => destruct (i =? k); cbn
             end; auto.
Qed.

Lemma frozen_state_fixed c v :
  is_hashed v = true -> snd (perform c v) = v.
Proof.
  intros Hv.
  destruct c; cbn [perform]; rewrite returning_state;
    unfold __radd__, __rmul__;
    unfold __add__, __sub__, __mul__, __truediv__, __neg__, __getitem__,
      move, scale, __iadd__, __isub__, __imul__, __itruediv__;
    rewrite ?on_copy_self, ?abs_self,
      ?(proj1 (comparison_self _ _)), ?(proj2 (comparison_self _ _)),
      ?augmented_frozen, ?rotate_frozen by exact Hv;
    auto.
  all: destruct v as [a b [h|]]; [clear Hv | discriminate]; try reflexivity.
  destruct (index =? 0); cbn; auto; destruct (index =? 1); cbn; auto.
Qed.

Lemma hash_freezes v : is_hashed (snd (__hash__ v)) = true.
Proof. destruct v as [a b [h|]]; reflexivity. Qed.

Lemma perform_all_frozen cs v :
  is_hashed v = true -> perform_all cs v = v.
Proof.
  intros Hv. induction cs as [|c cs IH]; cbn; [reflexivity|].
  now rewrite frozen_state_fixed.
Qed.

(** A frozen receiver: the guard raises before any write. *)
Lemma frozen_mutation_raises v c :
  is_hashed v = true -> mutation c ->
  exists msg,
    perform c v = (Raise (ValueError msg), v) /\
    existsb (String.eqb msg) frozen_messages = true.
Proof.
  intros Hv Hc.
  destruct Hc; unfold perform, returning, move, scale,
    __iadd__, __isub__, __imul__, __itruediv__;
    try (erewrite bind_Raise by (apply augmented_frozen; exact Hv);
         eexists; split; reflexivity);
    try (erewrite bind_Raise by (apply rotate_frozen; exact Hv);
         eexists; split; reflexivity).
  - erewrite bind_Raise
      by (unfold x_setter; apply guarded_frozen; exact Hv).
    eexists; split; reflexivity.
  - erewrite bind_Raise
      by (unfold y_setter; apply guarded_frozen; exact Hv).
    eexists; split; reflexivity.
Qed.


Lemma setter_succeeds v value :
  is_hashed v = false ->
  x_setter value v = (Ok tt, mkvector value (_y v) None) /\
  y_setter value v = (Ok tt, mkvector (_x v) value None).
Proof.
  intros Hv. unfold x_setter, y_setter. rewrite !guarded_unfrozen by exact Hv.
  unfold is_hashed in Hv. destruct v as [a b [h|]]; [discriminate|].
  split; reflexivity.
Qed.

(** A division in place by zero fails. *)
Lemma itruediv_by_zero other v :
  is_hashed v = false -> zero_divisor other = true ->
  succeeds (fst (__itruediv__ other v)) = false.
Proof.
  intros Hv Hz. unfold __itruediv__. rewrite augmented_unfrozen by exact Hv.
  assert (Hor : is_zero (operand_x other) = true \/
                is_zero (operand_y other) = true).
  { destruct other; cbn in *; [now apply orb_true_iff | auto]. }
  destruct Hor as [H|H].
  - pose proof (num_truediv_by_zero (_x v) _ H) as E.
    destruct (num_truediv (_x v) _); [discriminate | reflexivity].
  - pose proof (num_truediv_by_zero (_y v) _ H) as E.
    destruct (num_truediv (_x v) _); [|reflexivity].
    destruct (num_truediv (_y v) _); [discriminate | reflexivity].
Qed.

(** A copy is not frozen, and what works on it does not freeze it. *)
Lemma on_copy_unfrozen m v w :
  keeps_hash m -> fst (on_copy m v) = Ok w -> _hash w = None.
Proof.
  intros Hm. rewrite on_copy_result.
  specialize (Hm (__init__ (_x v) (_y v))).
  destruct (m _) as [[a|e] c]; [|discriminate].
  intros E. injection E as <-. exact Hm.
Qed.

Lemma on_copy_unguarded m v :
  (forall u, is_hashed u = false ->
     at_worst_arithmetic (fst (m u)) = true) ->
  at_worst_arithmetic (fst (on_copy m v)) = true.
Proof.
  intros Hm. rewrite on_copy_result.
  specialize (Hm (__init__ (_x v) (_y v)) eq_refl).
  destruct (m _) as [[a|e] c]; [reflexivity | exact Hm].
Qed.

Lemma on_copy_succeeds m v :
  succeeds (fst (on_copy m v)) = succeeds (fst (m (__init__ (_x v) (_y v)))).
Proof. rewrite on_copy_result. now destruct (m _) as [[a|e] c]. Qed.

Lemma negation_result v :
  __neg__ v = (Ok (__init__ (num_neg (_x v)) (num_neg (_y v))), v).
Proof. reflexivity. Qed.

Lemma augmented_keeps_hash msg op other : keeps_hash (augmented msg op other).
Proof. intros v. apply augmented_hash. Qed.

Lemma int_operators :
  (forall a b, is_int a = true -> is_int b = true ->
     exists c, num_add a b = Ok c /\ is_int c = true) /\
  (forall a b, is_int a = true -> is_int b = true ->
     exists c, num_sub a b = Ok c /\ is_int c = true) /\
  (forall a b, is_int a = true -> is_int b = true ->
     exists c, num_mul a b = Ok c /\ is_int c = true).
Proof. repeat split; intros a b Ha Hb; now apply int_op_returns. Qed.


(** C9.  On a frozen vector every in-place mutation raises the frozen
    error and leaves the three slots [_x], [_y] and [_hash] as they
    were. *)
Theorem frozen_mutation_atomic v c :
  is_hashed v = true -> mutation c ->
  is_frozen_error (fst (perform c v)) = true /\ snd (perform c v) = v.
Proof.
  intros Hv Hc. destruct (frozen_mutation_raises v c Hv Hc) as [msg [E Hm]].
  rewrite E. split; [exact Hm | reflexivity].
Qed.

(** C10.  On every vector, frozen or not, [copy], [+], [-], [*], [/]
    and unary [-] never raise the frozen error, nor any error but one
    of the arithmetic, and leave the receiver as it was; what they
    return is a vector that is not frozen; and they do on a frozen
    receiver what they do on a fresh vector with the same components:
    [copy] and unary [-] return, so do [+], [-] and [*] between ints,
    and a division by zero fails. *)
Theorem copy_operators_ignore_freeze v c :
  on_a_copy c ->
  is_frozen_error (fst (perform c v)) = false /\
  at_worst_arithmetic (fst (perform c v)) = true /\
  snd (perform c v) = v /\
  (forall r, fst (perform c v) = Ok r ->
     exists w, r = VVector w /\ _hash w = None) /\
  fst (perform c v) = fst (perform c (__init__ (_x v) (_y v))) /\
  match c with
  | Copy | Neg => succeeds (fst (perform c v)) = true
  | Add other | Radd other | Sub other | Mul other | Rmul other =>
      is_int (_x v) = true -> is_int (_y v) = true ->
      integral other = true -> succeeds (fst (perform c v)) = true
  | Truediv other =>
      zero_divisor other = true -> succeeds (fst (perform c v)) = false
  | _ => True
  end.
Proof.
  intros Hc. destruct int_operators as (Hadd & Hsub & Hmul).
  assert (Ha : at_worst_arithmetic (fst (perform c v)) = true).
  { destruct Hc; cbn [perform]; rewrite returning_arithmetic;
      unfold __radd__, __rmul__;
      unfold __add__, __sub__, __mul__, __truediv__,
        __iadd__, __isub__, __imul__, __itruediv__;
      try reflexivity;
      apply on_copy_unguarded; intros u Hu;
      apply augmented_unguarded; try exact Hu; intros;
      first [ apply num_add_arithmetic | apply num_sub_arithmetic
            | apply num_mul_arithmetic | apply num_truediv_arithmetic ]. }
  split; [now apply arithmetic_not_frozen|].
  split; [exact Ha|]. split; [|split; [|split]].
  - destruct Hc; cbn [perform]; rewrite returning_state;
      unfold __radd__, __rmul__;
      unfold __add__, __sub__, __mul__, __truediv__, __neg__;
      rewrite ?on_copy_self; reflexivity.
  - intros r. destruct Hc; cbn [perform]; rewrite returning_result;
      unfold __radd__, __rmul__;
      unfold __add__, __sub__, __mul__, __truediv__,
        __iadd__, __isub__, __imul__, __itruediv__;
      try (intros E; injection E as <-; eexists; split; reflexivity);
      match goal with
      | |- context [on_copy ?m _] =>
          pose proof (on_copy_unfrozen m v) as Hw;
          destruct (fst (on_copy m v)) as [w|e]; [|discriminate];
          intros E; injection E as <-; eexists; split; [reflexivity|];
          apply Hw; [apply augmented_keeps_hash | reflexivity]
      end.
  - destruct Hc; cbn [perform]; rewrite !returning_result;
      unfold __radd__, __rmul__;
      unfold __add__, __sub__, __mul__, __truediv__, __neg__;
      try reflexivity; now rewrite on_copy_fresh.
  - destruct Hc; cbn [perform]; rewrite ?returning_succeeds;
      unfold __radd__, __rmul__;
      unfold __add__, __sub__, __mul__,
        __iadd__, __isub__, __imul__;
      try exact I; try reflexivity;
      try (intros Hz; unfold __truediv__; rewrite on_copy_succeeds;
           now apply itruediv_by_zero);
      intros Hx Hy Ho; rewrite on_copy_succeeds;
      erewrite augmented_int
        by first [reflexivity | cbn; eassumption];
      reflexivity.
Qed.

(** C5.  When the rounded components of two vectors differ in exactly
    one coordinate, [!=] answers false and [==] answers false too. *)
Theorem ne_is_not_the_negation_of_eq v w :
  (num_neb (round9 (_x v)) (round9 (_x w)) = true /\
   num_neb (round9 (_y v)) (round9 (_y w)) = false) \/
  (num_neb (round9 (_x v)) (round9 (_x w)) = false /\
   num_neb (round9 (_y v)) (round9 (_y w)) = true) ->
  fst (__ne__ (PyVector w) v) = Ok (PyBool false) /\
  fst (__eq__ (PyVector w) v) = Ok (PyBool false).
Proof.
  unfold __ne__, __eq__, x, y, bind, getattr, ret, on_object, num_neb.
  cbn.
  destruct (num_eqb (round9 (_x v)) (round9 (_x w))); cbn;
    destruct (num_eqb (round9 (_y v)) (round9 (_y w))); cbn;
    intros [[H1 H2]|[H1 H2]]; try discriminate; auto.
Qed.

(** C7 (amended).  Compared with a vector, [__eq__] answers whether
    both rounded components are equal, and so does [==].  Compared
    with anything else [__eq__] raises nothing, returns
    [NotImplemented] and leaves the receiver as it was; [==] is then
    false for a number, a string and [None], and for an object of
    another class it is what the [__eq__] of that object answers or
    raises, and false when that declines too. *)
Theorem eq_on_other_types v other :
  match other with
  | PyVector w =>
      __eq__ other v =
      (Ok (PyBool (num_eqb (round9 (_x v)) (round9 (_x w)) &&
                   num_eqb (round9 (_y v)) (round9 (_y w)))), v) /\
      equals other v =
      (Ok (num_eqb (round9 (_x v)) (round9 (_x w)) &&
           num_eqb (round9 (_y v)) (round9 (_y w))), v)
  | PyObject reflected =>
      __eq__ other v = (Ok NotImplemented, v) /\
      equals other v =
      match reflected v with
      | (Ok (PyBool b), v') => (Ok b, v')
      | (Ok NotImplemented, v') => (Ok false, v')
      | (Raise e, v') => (Raise e, v')
      end
  | _ =>
      __eq__ other v = (Ok NotImplemented, v) /\
      equals other v = (Ok false, v)
  end.
Proof.
  destruct other as [w| | | |r]; try (split; reflexivity).
  - assert (E : __eq__ (PyVector w) v =
                (Ok (PyBool (num_eqb (round9 (_x v)) (round9 (_x w)) &&
                             num_eqb (round9 (_y v)) (round9 (_y w)))), v)).
    { unfold __eq__, x, y, bind, getattr, ret, on_object. cbn.
      now destruct (num_eqb (round9 (_x v)) (round9 (_x w))). }
    split; [exact E|]. unfold equals, bind. now rewrite E.
  - split; [reflexivity|].
    unfold equals, bind, ret. cbn.
    now destruct (r v) as [[[b|]|e] v'].
Qed.

(** The magnitude of two floats: the squares, their sum, its root. *)
Lemma abs_of_floats v f g :
  _x v = Float f -> _y v = Float g ->
  fst (__abs__ v) =
  and_then (raised (float_square f)) (fun f2 =>
  and_then (raised (float_square g)) (fun g2 =>
  Ok (Magnitude (float_sqrt (float_add f2 g2))))).
Proof.
  intros Hx Hy. unfold __abs__, bind, getattr, lift, ret. cbn.
  rewrite Hx, Hy. cbn.
  destruct (float_square f); cbn; try reflexivity.
  destruct (float_square g); reflexivity.
Qed.

(** A float component whose square is beyond the floats. *)
Lemma abs_overflows v q :
  _x v = Float (Finite q) -> (inject_Z (2 ^ 1024) <= q * q)%Q ->
  fst (__abs__ v) = Raise OverflowError.
Proof.
  intros Hx Hq. unfold __abs__, bind, getattr, lift, ret. cbn.
  rewrite Hx. cbn. now rewrite float_square_overflow.
Qed.

(** C8 (amended).  The properties [x] and [y] return the stored
    component rounded to nine decimal digits, an int as it is and a
    float through [round], and leave the vector as it was; the setters
    store the value they are given.  [abs] reads the stored components,
    not the rounded ones, and leaves the vector as it was: for two int
    components whose squares sum to less than [2 ^ 1023] it is the
    square root of that sum; for two floats it is the root of the sum
    of the squares as the floats compute them, and it raises
    [OverflowError] when the square of a component is beyond the
    floats. *)
Theorem reads_rounded_magnitude_exact v :
  x v = (Ok (round9 (_x v)), v) /\
  y v = (Ok (round9 (_y v)), v) /\
  (forall n, round9 (Int n) = Int n) /\
  (forall f, round9 (Float f) = Float (float_round9 f)) /\
  (forall value, is_hashed v = false ->
     _x (snd (x_setter value v)) = value /\
     _y (snd (y_setter value v)) = value) /\
  snd (__abs__ v) = v /\
  (forall a b, _x v = Int a -> _y v = Int b -> a * a + b * b < 2 ^ 1023 ->
     fst (__abs__ v) = Ok (Root (a * a + b * b)) /\
     root_value (a * a + b * b) = sqrt (IZR a * IZR a + IZR b * IZR b)) /\
  (forall f g, _x v = Float f -> _y v = Float g ->
     fst (__abs__ v) =
     and_then (raised (float_square f)) (fun f2 =>
     and_then (raised (float_square g)) (fun g2 =>
     Ok (Magnitude (float_sqrt (float_add f2 g2)))))) /\
  (forall q, _x v = Float (Finite q) -> (inject_Z (2 ^ 1024) <= q * q)%Q ->
     fst (__abs__ v) = Raise OverflowError).
Proof.
  split; [reflexivity|]. split; [reflexivity|]. split; [reflexivity|].
  split; [reflexivity|]. split; [|split; [|split; [|split]]].
  - intros value Hv.
    destruct (setter_succeeds v value Hv) as [-> ->]. split; reflexivity.
  - apply abs_self.
  - intros a b Hx Hy _. split.
    + unfold __abs__, bind, getattr, lift, ret. cbn. rewrite Hx, Hy.
      reflexivity.
    + unfold root_value. now rewrite plus_IZR, !mult_IZR.
  - apply abs_of_floats.
  - apply abs_overflows.
Qed.

End VectorFacts.

(** *** The discipline on examples *)



Lemma frozen_mutation_atomic_witness :
  let v := snd (@__hash__ sample_builtins (__init__ (Int 1) (Int 2))) in
  let c := Iadd (Vec (__init__ (Int 3) (Int 4))) in
  is_frozen_error (fst (@perform sample_builtins c v)) = true /\
  snd (@perform sample_builtins c v) = v.
Proof.
  intros v c. apply (@frozen_mutation_atomic sample_builtins v c).
  - reflexivity.
  - constructor.
Defined.

Lemma copy_operators_ignore_freeze_witness :
  let v := snd (@__hash__ sample_builtins (__init__ (Int 1) (Int 2))) in
  let c := Add (Vec (__init__ (Int 3) (Int 4))) in
  is_frozen_error (fst (@perform sample_builtins c v)) = false /\
  snd (@perform sample_builtins c v) = v /\
  succeeds (fst (@perform sample_builtins c v)) = true.
Proof.
  intros v c.
  destruct (@copy_operators_ignore_freeze sample_builtins v c)
    as (H1 & _ & H2 & _ & _ & H5).
  - constructor.
  - split; [exact H1 | split; [exact H2 | apply H5; reflexivity]].
Defined.

Lemma ne_is_not_the_negation_of_eq_witness :
  let v := __init__ (Int 1) (Int 2) in
  let w := __init__ (Int 1) (Int 4) in
  fst (__ne__ (PyVector w) v) = Ok (PyBool false) /\
  fst (__eq__ (PyVector w) v) = Ok (PyBool false).
Proof.
  intros v w. apply (ne_is_not_the_negation_of_eq v w).
  right. split; reflexivity.
Defined.

(** C7, without the amendment: a vector compared with a number
    raises nothing; [__eq__] returns [NotImplemented] and [==] answers
    false. *)
Lemma eq_with_a_number_raises_nothing :
  let v := __init__ (Int 1) (Int 2) in
  __eq__ (PyNumber (Int 5)) v = (Ok NotImplemented, v) /\
  equals (PyNumber (Int 5)) v = (Ok false, v) /\
  forall e, fst (__eq__ (PyNumber (Int 5)) v) <> Raise e.
Proof. repeat split; try reflexivity. intros e. discriminate. Qed.

(** C8, without the amendment: the magnitude of the vector holding
    [1e200] and [0.0] is not returned; squaring the component raises
    [OverflowError]. *)
Lemma magnitude_of_a_large_float_overflows :
  let v := __init__ (Float (Finite (inject_Z (10 ^ 200))))
             (Float (Finite 0)) in
  fst (@__abs__ sample_builtins v) = Raise OverflowError.
Proof.
  intros v. apply (@abs_overflows sample_builtins v (inject_Z (10 ^ 200))).
  - reflexivity.
  - apply Qle_bool_iff. vm_compute. reflexivity.
Qed.

(** The vector holding [1.00000000004] and [0.0] reads [1.0] for [x]
    while its magnitude exceeds [1]. *)
Lemma reads_rounded_magnitude_exact_witness :
  let v := __init__ (Float (Finite (100000000004 # 100000000000)))
             (Float (Finite 0)) in
  let value := Float (Finite (314159265358979 # 100000000000000)) in
  (_x (snd (x_setter value v)) = value /\
   _y (snd (y_setter value v)) = value) /\
  fst (@x sample_builtins v) = Ok (Float (Finite 1)) /\
  exists r, fst (@__abs__ sample_builtins v) = Ok r /\
            magnitude_gtb r 1 = true.
Proof.
  intros v value.
  destruct (@reads_rounded_magnitude_exact sample_builtins v)
    as (Hx & _ & _ & _ & Hset & _ & _ & Habs & _).
  split; [apply Hset; reflexivity|]. split; [now rewrite Hx|].
  rewrite (Habs _ _ eq_refl eq_refl). eexists. split; reflexivity.
Defined.

(** ** The game loop

    On a world made of integer positions each phase of [draw] computes
    what the corresponding function on boards says. *)

Section GameFacts.

Context {builtins : Builtins}.


Lemma for_in_cons {A} (body : A -> method A) acc ball rest :
  for_in body acc (ball :: rest) =
  match body acc ball with
  | (Ok acc', ball') =>
      let (r, rest') := for_in body acc' rest in (r, ball' :: rest')
  | (Raise e, ball') => (Raise e, ball' :: rest)
  end.
Proof. reflexivity. Qed.

Lemma for_in_drift l :
  for_in
    (fun _ : unit =>
       bind x (fun a => bind (lift (num_sub a (Int 3))) x_setter))
    tt (map vector_at l) =
  (Ok tt, map vector_at (map drift l)).
Proof.
  induction l as [|p l IH]; [reflexivity|].
  cbn [map]. rewrite for_in_cons.
  change (bind x _ (vector_at p)) with (@Ok unit tt, vector_at (drift p)).
  cbv beta iota. now rewrite IH.
Qed.

Lemma move_and_spawn_world_of d b h t s :
  move_and_spawn d (world_of b h t s) = (Ok tt, world_of (moved d b) h t s).
Proof.
  unfold move_and_spawn, bind, on_bird, for_ball_in_balls, world_of.
  cbn [bird balls onclick timers screen].
  cbn -[for_in map]. rewrite for_in_drift.
  unfold moved, spawn. cbn [bird_at balls_at].
  destruct (roll d =? 0); cbn; rewrite ?map_app, ?app_nil_r; reflexivity.
Qed.

Lemma for_in_dodge q l alive :
  for_in
    (fun alive =>
       bind (__sub__ (Vec (vector_at q))) (fun diff =>
       bind (on_object diff __abs__) (fun r =>
       ret (alive && magnitude_gtb (fst r) 15))))
    alive (map vector_at l) =
  (Ok (alive && forallb (fun p => 15 * 15 <? squared_distance p q) l),
   map vector_at l).
Proof.
  revert alive. induction l as [|p l IH]; intros alive.
  - cbn. now rewrite andb_true_r.
  - cbn [map forallb]. rewrite for_in_cons.
    change (bind _ _ (vector_at p))
      with (@Ok bool
              (alive && magnitude_gtb (Root (squared_distance p q)) 15),
            vector_at p).
    cbv beta iota. rewrite IH, dodge_Int. now rewrite andb_assoc.
Qed.

Lemma inside_vector_at p :
  inside (vector_at p) =
  (Ok (((-200 <? fst p) && (fst p <? 200)) &&
       ((-200 <? snd p) && (snd p <? 200))), vector_at p).
Proof.
  cbv [inside bind x y getattr ret vector_at __init__ _x _y round9].
  rewrite !num_ltb_Int.
  destruct ((-200 <? fst p) && (fst p <? 200)); cbv beta iota;
    rewrite ?num_ltb_Int; reflexivity.
Qed.

Lemma survey_world_of b h t s :
  survey (world_of b h t s) = (Ok (safe b), world_of b h t s).
Proof.
  unfold survey.
  erewrite bind_Ok
    by (unfold on_bird, world_of; cbn [bird]; rewrite inside_vector_at;
        reflexivity).
  erewrite bind_Ok by reflexivity.
  unfold for_ball_in_balls, world_of. cbn [bird balls onclick timers screen].
  now rewrite for_in_dodge.
Qed.

Lemma evict_world_of b h t s :
  evict (world_of b h t s) =
  (Ok tt, world_of (mkboard (bird_at b) (evict_oldest (balls_at b))) h t s).
Proof.
  unfold evict. erewrite bind_Ok by reflexivity.
  unfold world_of, evict_oldest. cbn [balls bird_at balls_at].
  rewrite length_map.
  destruct (30 <? Z.of_nat (List.length (balls_at b))); [|reflexivity].
  unfold balls_pop0. cbn [bird balls onclick timers screen].
  now destruct (balls_at b).
Qed.

Lemma for_in_goto l calls :
  for_in
    (fun calls =>
       bind x (fun a => bind y (fun b =>
       ret (calls ++ [goto a b; dot 20 black]))))
    calls (map vector_at l) =
  (Ok (calls ++
       flat_map (fun p => [goto (Int (fst p)) (Int (snd p)); dot 20 black]) l),
   map vector_at l).
Proof.
  revert calls. induction l as [|p l IH]; intros calls.
  - cbn. now rewrite app_nil_r.
  - cbn [map flat_map]. rewrite for_in_cons.
    change (bind x _ (vector_at p))
      with (@Ok (list turtle_call)
              (calls ++ [goto (Int (fst p)) (Int (snd p)); dot 20 black]),
            vector_at p).
    cbv beta iota. rewrite IH. now rewrite <- app_assoc.
Qed.

Lemma turtle_world_of calls b h t s :
  turtle calls (world_of b h t s) = (Ok tt, world_of b h t (s ++ calls)).
Proof. reflexivity. Qed.

Lemma bird_x_world_of b h t s :
  on_bird x (world_of b h t s) = (Ok (Int (fst (bird_at b))), world_of b h t s).
Proof. reflexivity. Qed.

Lemma bird_y_world_of b h t s :
  on_bird y (world_of b h t s) = (Ok (Int (snd (bird_at b))), world_of b h t s).
Proof. reflexivity. Qed.

Lemma goto_balls_world_of b h t s :
  for_ball_in_balls
    (fun calls =>
       bind x (fun a => bind y (fun b =>
       ret (calls ++ [goto a b; dot 20 black]))))
    [] (world_of b h t s) =
  (Ok (flat_map (fun p => [goto (Int (fst p)) (Int (snd p)); dot 20 black])
         (balls_at b)),
   world_of b h t s).
Proof.
  unfold for_ball_in_balls, world_of. cbn [bird balls onclick timers screen].
  now rewrite for_in_goto.
Qed.

Lemma render_world_of alive b h t s :
  render alive (world_of b h t s) =
  (Ok tt, world_of b h t (s ++ frame alive b)).
Proof.
  destruct alive; unfold render.
  all: erewrite bind_Ok by apply turtle_world_of.
  all: erewrite bind_Ok by apply goto_balls_world_of.
  all: erewrite bind_Ok by apply turtle_world_of.
  all: erewrite bind_Ok by apply bird_x_world_of.
  all: erewrite bind_Ok by apply bird_y_world_of.
  all: erewrite bind_Ok by apply turtle_world_of.
  all: erewrite bind_Ok by apply turtle_world_of.
  all: rewrite turtle_world_of; unfold frame.
  all: rewrite <- !app_assoc; reflexivity.
Qed.

Lemma draw_world_of d b h t s :
  draw d (world_of b h t s) =
  (Ok tt,
   world_of (ticked d b) h
     (t ++ if safe (moved d b) then [50] else [])
     (s ++ frame (safe (moved d b)) (ticked d b))).
Proof.
  unfold draw.
  erewrite bind_Ok by apply move_and_spawn_world_of.
  erewrite bind_Ok by apply survey_world_of.
  erewrite bind_Ok by apply evict_world_of.
  erewrite bind_Ok by apply render_world_of.
  unfold reschedule, ticked.
  destruct (safe (moved d b)); cbn; rewrite ?app_nil_r; reflexivity.
Qed.

Lemma tap_world_of cx cy b h t s :
  tap cx cy (world_of b h t s) =
  (Ok tt, world_of (mkboard (rise (bird_at b)) (balls_at b)) h t s).
Proof.
  unfold tap, on_bird, world_of, rise, vector_at.
  cbn. now rewrite Z.add_0_r.
Qed.

Lemma start_world_of cx cy d b h t s :
  start cx cy d (world_of b h t s) =
  (Ok tt,
   world_of (ticked d b) bound_tap
     (t ++ if safe (moved d b) then [50] else [])
     (s ++ frame (safe (moved d b)) (ticked d b))).
Proof.
  unfold start. erewrite bind_Ok by apply draw_world_of. reflexivity.
Qed.

Lemma pop_timer_due b h ms rest s :
  pop_timer (world_of b h (ms :: rest) s) = (Ok true, world_of b h rest s).
Proof. reflexivity. Qed.

(** One event on an integer world: the world stays one, the balls
    change only when the event makes [draw] run, and [tap] stays bound. *)
Lemma deliver_world_of d e b h t s :
  exists b' h' t' s',
    deliver d e (world_of b h t s) = (Ok tt, world_of b' h' t' s') /\
    balls_at b' =
      (if ticks e (world_of b h t s)
       then evict_oldest (map drift (balls_at b) ++ spawn d)
       else balls_at b) /\
    (h = bound_tap -> h' = bound_tap) /\
    (h = bound_tap -> t = [] -> t' = [] /\ s' = s).
Proof.
  destruct e as [cx cy|]; cbn [deliver].
  - destruct h.
    + erewrite bind_Ok by reflexivity. cbn [onclick world_of].
      rewrite start_world_of. do 4 eexists. split; [reflexivity|].
      repeat split; discriminate.
    + erewrite bind_Ok by reflexivity. cbn [onclick world_of].
      rewrite tap_world_of. do 4 eexists. split; [reflexivity|].
      cbn. auto.
  - destruct t as [|ms rest].
    + erewrite bind_Ok by reflexivity. do 4 eexists.
      split; [reflexivity|]. cbn. auto.
    + erewrite bind_Ok by apply pop_timer_due.
      cbv beta iota. rewrite draw_world_of. do 4 eexists. split; [reflexivity|].
      cbn. repeat split; auto; discriminate.
Qed.

(** *** Keeping the last thirty *)

Lemma evict_oldest_map {A B} (f : A -> B) l :
  evict_oldest (map f l) = map f (evict_oldest l).
Proof.
  unfold evict_oldest. rewrite length_map.
  destruct (30 <? Z.of_nat (List.length l)); [now destruct l | reflexivity].
Qed.

Lemma evict_oldest_lastn {A} (l : list A) :
  (List.length l <= 31)%nat -> evict_oldest l = lastn 30 l.
Proof.
  intros Hl. unfold evict_oldest, lastn.
  destruct (Z.ltb_spec 30 (Z.of_nat (List.length l))) as [H|H].
  - replace (List.length l - 30)%nat with 1%nat by lia. now destruct l.
  - now replace (List.length l - 30)%nat with 0%nat by lia.
Qed.

Lemma length_lastn {A} n (l : list A) :
  List.length (lastn n l) = Nat.min n (List.length l).
Proof. unfold lastn. rewrite length_skipn. lia. Qed.

Lemma lastn_app {A} n (l k : list A) :
  lastn n (lastn n l ++ k) = lastn n (l ++ k).
Proof.
  unfold lastn at 2.
  replace (skipn (List.length l - n) l ++ k)
    with (skipn (List.length l - n) (l ++ k)).
  - unfold lastn. rewrite skipn_skipn, length_skipn, !length_app.
    f_equal. lia.
  - rewrite skipn_app.
    replace (List.length l - n - List.length l)%nat with 0%nat by lia.
    reflexivity.
Qed.

Lemma map_snd_drift l : map snd (map drift l) = map snd l.
Proof. rewrite map_map. now apply map_ext. Qed.

Lemma tick_keeps_last_thirty d l log :
  map snd l = lastn 30 log ->
  map snd (evict_oldest (map drift l ++ spawn d)) =
  lastn 30 (log ++ (if roll d =? 0 then [height d] else [])).
Proof.
  intros Hl. rewrite <- evict_oldest_map, map_app, map_snd_drift, Hl.
  rewrite evict_oldest_lastn.
  - rewrite lastn_app. unfold spawn. now destruct (roll d =? 0).
  - rewrite length_app, length_lastn, length_map. unfold spawn.
    destruct (roll d =? 0); cbn [List.length]; lia.
Qed.

Lemma run_cons d e rest w w' :
  deliver d e w = (Ok tt, w') -> run ((d, e) :: rest) w = run rest w'.
Proof. intros H. cbn [run]. now erewrite bind_Ok by exact H. Qed.

(** A session on an integer world never raises, ends on an integer
    world, and its balls are the last thirty spawned. *)
Lemma run_world_of inputs :
  forall b h t s log,
    map snd (balls_at b) = lastn 30 log ->
    exists b' h' t' s',
      run inputs (world_of b h t s) = (Ok tt, world_of b' h' t' s') /\
      map snd (balls_at b') =
        lastn 30 (log ++ spawned inputs (world_of b h t s)).
Proof.
  induction inputs as [|[d e] rest IH]; intros b h t s log Hlog.
  - exists b, h, t, s. cbn [run spawned]. now rewrite app_nil_r.
  - destruct (deliver_world_of d e b h t s)
      as (b1 & h1 & t1 & s1 & Hd & Hb & _).
    destruct (IH b1 h1 t1 s1
                (log ++ if ticks e (world_of b h t s) && (roll d =? 0)
                        then [height d] else []))
      as (b' & h' & t' & s' & Hr & Hb').
    + rewrite Hb. destruct (ticks e (world_of b h t s)); cbn [andb].
      * now apply tick_keeps_last_thirty.
      * now rewrite app_nil_r.
    + exists b', h', t', s'. rewrite (run_cons _ _ _ _ _ Hd).
      split; [exact Hr|].
      cbn [spawned]. rewrite Hd. cbn [snd]. now rewrite app_assoc.
Qed.

Lemma initial_world_of :
  initial = world_of (mkboard (0, 0) []) bound_start [] [].
Proof. reflexivity. Qed.

(** Every world a session reaches is made of integer positions, and
    no session raises. *)
Lemma reachable_world_of inputs :
  exists b h t s, run inputs initial = (Ok tt, world_of b h t s).
Proof.
  rewrite initial_world_of.
  destruct (run_world_of inputs (mkboard (0, 0) []) bound_start [] [] [])
    as (b & h & t & s & Hr & _); [reflexivity|].
  eauto.
Qed.

(** After the game has ended nothing runs [draw] again. *)
Lemma ended_forever inputs :
  forall b s,
    exists b',
      run inputs (world_of b bound_tap [] s) =
        (Ok tt, world_of b' bound_tap [] s) /\
      balls_at b' = balls_at b.
Proof.
  induction inputs as [|[d e] rest IH]; intros b s.
  - exists b. split; reflexivity.
  - destruct (deliver_world_of d e b bound_tap [] s)
      as (b1 & h1 & t1 & s1 & Hd & Hb & Hh & Ht).
    rewrite (Hh eq_refl) in Hd. destruct (Ht eq_refl eq_refl) as [-> ->].
    destruct (IH b1 s) as (b' & Hr & Hb').
    exists b'. rewrite (run_cons _ _ _ _ _ Hd). split; [exact Hr|].
    rewrite Hb', Hb. now destruct e.
Qed.

Lemma dodge_distance p q :
  (15 * 15 <? squared_distance p q) = true <-> (15 < distance p q)%R.
Proof.
  unfold distance. set (n := squared_distance p q).
  assert (E : sqrt (IZR (15 * 15)) = 15%R).
  { rewrite mult_IZR. apply sqrt_square. lra. }
  rewrite Z.ltb_lt. split.
  - intros H. rewrite <- E. apply sqrt_lt_1_alt. split.
    + apply IZR_le. lia.
    + now apply IZR_lt.
  - intros H. destruct (Z.lt_ge_cases (15 * 15) n) as [L|L]; [exact L|].
    apply IZR_le, sqrt_le_1_alt in L. rewrite E in L. lra.
Qed.

Lemma safe_spec b :
  safe b = true <->
  strictly_inside (bird_at b) /\
  Forall (fun p => (15 < distance p (bird_at b))%R) (balls_at b).
Proof.
  unfold safe, strictly_inside.
  rewrite !andb_true_iff, !Z.ltb_lt, forallb_forall, Forall_forall.
  split.
  - intros [Hin Hb]. split; [lia|]. intros p Hp. now apply dodge_distance, Hb.
  - intros [Hin Hb]. split; [lia|]. intros p Hp. now apply dodge_distance, Hb.
Qed.

(** C2.  In every tick, once the bird and the balls have moved and the
    ball of this tick, if any, has been spawned, [alive] is true exactly
    when the bird is strictly inside the playfield, both coordinates
    strictly between -200 and 200, and every ball then in the list,
    the new one included and none evicted yet, is at a distance from the
    bird that strictly exceeds 15.  The rest of the tick runs with this
    value. *)
Theorem alive_iff_inside_and_clear d b h t s :
  let w1 := world_of (moved d b) h t s in
  exists alive,
    move_and_spawn d (world_of b h t s) = (Ok tt, w1) /\
    survey w1 = (Ok alive, w1) /\
    draw d (world_of b h t s) =
      bind evict (fun _ => bind (render alive) (fun _ => reschedule alive))
        w1 /\
    (alive = true <->
       strictly_inside (bird_at (moved d b)) /\
       Forall (fun p => (15 < distance p (bird_at (moved d b)))%R)
         (balls_at (moved d b))).
Proof.
  intros w1. exists (safe (moved d b)).
  split; [apply move_and_spawn_world_of|].
  split; [apply survey_world_of|].
  split; [|apply safe_spec].
  unfold draw.
  erewrite bind_Ok by apply move_and_spawn_world_of.
  erewrite bind_Ok by apply survey_world_of. reflexivity.
Qed.

(** C3.  Every session from the initial world, where the list of balls
    is empty, ends with at most 30 balls, and these are the last 30
    spawned, in the order of their spawning; after 31 spawns they are
    all but the first.  A tick appends at most one ball, at x = 199,
    and then removes the ball at index 0 when the list holds more than
    30, so that it ends with at most 30 again. *)
Theorem at_most_thirty_balls inputs :
  exists b h t s,
    run inputs initial = (Ok tt, world_of b h t s) /\
    (List.length (balls (world_of b h t s)) <= 30)%nat /\
    map snd (balls_at b) = lastn 30 (spawned inputs initial) /\
    (List.length (spawned inputs initial) = 31%nat ->
       map snd (balls_at b) = tl (spawned inputs initial)) /\
    (forall d,
       exists t' s',
         draw d (world_of b h t s) = (Ok tt, world_of (ticked d b) h t' s') /\
         balls_at (ticked d b) =
           evict_oldest (map drift (balls_at b) ++ spawn d) /\
         (spawn d = [] \/ spawn d = [(199, height d)]) /\
         (List.length (balls_at (ticked d b)) <= 30)%nat).
Proof.
  rewrite initial_world_of.
  destruct (run_world_of inputs (mkboard (0, 0) []) bound_start [] [] [])
    as (b & h & t & s & Hr & Hb); [reflexivity|].
  cbn [app] in Hb. exists b, h, t, s.
  assert (Hlen : (List.length (balls_at b) <= 30)%nat).
  { rewrite <- (length_map snd), Hb, length_lastn. lia. }
  split; [exact Hr|].
  split; [cbn [balls world_of]; now rewrite length_map|].
  split; [exact Hb|]. split.
  - intros H31. rewrite Hb. unfold lastn. rewrite H31.
    now destruct (spawned inputs _).
  - intros d. do 2 eexists. rewrite draw_world_of.
    split; [reflexivity|]. split; [reflexivity|]. split.
    + unfold spawn. destruct (roll d =? 0); auto.
    + cbn [ticked balls_at moved]. unfold evict_oldest.
      assert (List.length (spawn d) <= 1)%nat
        by (unfold spawn; destruct (roll d =? 0); cbn; lia).
      destruct (Z.ltb_spec 30
                  (Z.of_nat (List.length (map drift (balls_at b) ++ spawn d))))
        as [H30|H30]; [|lia].
      destruct (map drift (balls_at b) ++ spawn d) eqn:E; [cbn in *; lia|].
      apply (f_equal (@List.length _)) in E.
      rewrite length_app, length_map in E. cbn [tl List.length] in *. lia.
Qed.

(** C4.  A tick ends with one more timer pending, of 50 ms, when
    [alive] is true, and with none more when it is false.  So the tick
    run by the only pending timer leaves the loop running exactly when
    [alive] is true and ended exactly when it is false; and once ended,
    whatever events follow, the loop stays ended: nothing is drawn and
    no ball moves. *)
Theorem rescheduled_iff_alive d b h t s :
  exists alive w1 w',
    move_and_spawn d (world_of b h t s) = (Ok tt, w1) /\
    survey w1 = (Ok alive, w1) /\
    draw d (world_of b h t s) = (Ok tt, w') /\
    timers w' = t ++ (if alive then [50] else []) /\
    (forall ms, exists w'',
       deliver d timeout (world_of b bound_tap [ms] s) = (Ok tt, w'') /\
       (running w'' <-> alive = true) /\
       (ended w'' <-> alive = false) /\
       (ended w'' ->
        forall inputs, exists w3,
          run inputs w'' = (Ok tt, w3) /\ ended w3 /\
          screen w3 = screen w'' /\ balls w3 = balls w'')).
Proof.
  exists (safe (moved d b)). do 2 eexists.
  split; [apply move_and_spawn_world_of|].
  split; [apply survey_world_of|].
  split; [apply draw_world_of|].
  split; [reflexivity|].
  intros ms. eexists. split.
  { cbn [deliver]. erewrite bind_Ok by apply pop_timer_due.
    cbv beta iota. apply draw_world_of. }
  unfold running, ended. cbn [onclick timers world_of app].
  destruct (safe (moved d b)).
  - split; [|split].
    + split; [reflexivity | split; [reflexivity | discriminate]].
    + split; [intros [_ H] | intros H]; discriminate.
    + intros [_ H]; discriminate.
  - split; [|split].
    + split; [intros [_ H]; congruence | discriminate].
    + split; [reflexivity | split; reflexivity].
    + intros _ inputs.
      destruct (ended_forever inputs (ticked d b)
                  (s ++ frame false (ticked d b))) as (b' & Hr & Hb').
      eexists. split; [exact Hr|]. cbn. now rewrite Hb'.
Qed.

(** C6 (amended).  Once [tap] is bound, that is from the first click
    on, every click moves the bird up by 30 and changes nothing else,
    whether a tick is pending or the loop has ended. *)
Theorem tap_lifts_bird_whenever_bound d cx cy b t s :
  deliver d (click cx cy) (world_of b bound_tap t s) =
  (Ok tt, world_of (mkboard (rise (bird_at b)) (balls_at b)) bound_tap t s).
Proof.
  cbn [deliver]. erewrite bind_Ok by reflexivity. cbn [onclick world_of].
  apply tap_world_of.
Qed.

End GameFacts.

(** *** The game on examples *)

Lemma at_most_thirty_balls_witness :
  exists b h t s,
    run thirty_one_spawns initial = (Ok tt, world_of b h t s) /\
    map snd (balls_at b) = map Z.of_nat (seq 1 30).
Proof.
  destruct (at_most_thirty_balls thirty_one_spawns)
    as (b & h & t & s & Hr & _ & _ & H31 & _).
  exists b, h, t, s. split; [exact Hr|].
  rewrite H31; vm_compute; reflexivity.
Defined.

Lemma rescheduled_iff_alive_witness :
  exists w'',
    deliver quiet timeout (world_of (mkboard (0, -195) []) bound_tap [50] [])
      = (Ok tt, w'') /\
    forall inputs, exists w3,
      run inputs w'' = (Ok tt, w3) /\ ended w3 /\
      screen w3 = screen w'' /\ balls w3 = balls w''.
Proof.
  destruct (rescheduled_iff_alive quiet (mkboard (0, -195) []) bound_tap [] [])
    as (alive & w1 & w' & Hm & Hs & _ & _ & Hd).
  destruct (Hd 50) as (w'' & Hw & _ & He & Hf).
  exists w''. split; [exact Hw|]. apply Hf, He.
  assert (E : survey w1 = (Ok false, w1)).
  { injection Hm as <-. reflexivity. }
  congruence.
Defined.

(** C6, without the amendment: where the bird has fallen on the lower
    edge the loop has ended, and a click still moves the bird, from
    (0, -200) to (0, -170). *)
Lemma tap_after_the_end_moves_the_bird :
  ended fallen /\
  bird fallen = vector_at (0, -200) /\
  bird (snd (deliver quiet (click (Int 0) (Int 0)) fallen)) =
    vector_at (0, -170).
Proof. vm_compute. repeat split; reflexivity. Qed.

(** * Further properties *)

(** ** [floor] *)

Section FloorFacts.

Context {B : Builtins}.

(** Between ints everything but the last conversion is exact. *)
Lemma floor_int v s o :
  s <> 0 ->
  floor (Int v) (Int s) (Int o) = float (Int ((v + o) / s * s - o)).
Proof.
  intros Hs. unfold floor, num_add, num_floordiv, num_mul, num_sub.
  cbn [and_then]. apply Z.eqb_neq in Hs. rewrite Hs. reflexivity.
Qed.

Lemma float_exact n :
  - 2 ^ 53 <= n <= 2 ^ 53 -> float (Int n) = Ok (Float (Finite (inject_Z n))).
Proof.
  intros Hn. unfold float, to_float. now rewrite float_of_int_exact.
Qed.

Lemma cell_bounds v s o :
  0 < s ->
  (v + o) / s * s - o <= v < (v + o) / s * s - o + s /\
  ((v + o) / s * s - o + o) mod s = 0.
Proof.
  intros Hs. pose proof (Z.div_mod (v + o) s ltac:(lia)) as E.
  pose proof (Z.mod_pos_bound (v + o) s Hs) as Hm.
  split; [nia|].
  replace ((v + o) / s * s - o + o) with ((v + o) / s * s) by lia.
  apply Z.mod_mul. lia.
Qed.

(** A zero [size], an int or a float, makes [floor] fail. *)
Lemma floor_zero_size value size offset :
  is_zero size = true -> succeeds (floor value size offset) = false.
Proof.
  intros Hz. unfold floor.
  destruct (num_add value offset) as [shifted|e]; [|reflexivity].
  cbn [and_then].
  assert (E : succeeds (num_floordiv shifted size) = false).
  { destruct size as [n|g]; cbn [is_zero] in Hz.
    - apply Z.eqb_eq in Hz. subst n. destruct shifted as [m|f].
      + reflexivity.
      + cbn. rewrite float_of_int_exact by lia. reflexivity.
    - destruct shifted as [m|f]; cbn; [|now rewrite Hz].
      destruct (float_of_int m); cbn; [now rewrite Hz | reflexivity ..]. }
  destruct (num_floordiv shifted size); [discriminate | reflexivity].
Qed.

(** X1.  Between ints and for a positive [size], [floor] returns as
    a float the lower edge of the cell of width [size] that holds
    [value]: the int it converts is at most [value], less than [size]
    below it, and a whole number of cells away from [-offset]; and the
    conversion is exact as long as this int has no more than 53
    bits. *)
Theorem floor_cell v s o :
  0 < s ->
  let r := (v + o) / s * s - o in
  floor (Int v) (Int s) (Int o) = float (Int r) /\
  r <= v < r + s /\ (r + o) mod s = 0 /\
  (- 2 ^ 53 <= r <= 2 ^ 53 ->
   floor (Int v) (Int s) (Int o) = Ok (Float (Finite (inject_Z r)))).
Proof.
  intros Hs r. destruct (cell_bounds v s o Hs) as [Hb Hm].
  split; [apply floor_int; lia|]. split; [exact Hb|]. split; [exact Hm|].
  intros Hr. rewrite floor_int by lia. now apply float_exact.
Qed.

(** X2.  Between ints [floor] raises [ZeroDivisionError] exactly when
    [size] is zero; otherwise only the conversion to a float can fail,
    and it does not when the edge has no more than 53 bits.  Whatever
    the numbers, a zero [size] makes [floor] fail. *)
Theorem floor_raises_iff v s o :
  (floor (Int v) (Int s) (Int o) = Raise ZeroDivisionError <-> s = 0) /\
  (s <> 0 ->
   floor (Int v) (Int s) (Int o) = float (Int ((v + o) / s * s - o))) /\
  (s <> 0 -> - 2 ^ 53 <= (v + o) / s * s - o <= 2 ^ 53 ->
   exists f, floor (Int v) (Int s) (Int o) = Ok (Float f)) /\
  (forall value size offset,
     is_zero size = true -> succeeds (floor value size offset) = false).
Proof.
  split; [|split; [|split]].
  - split.
    + intros E. destruct (Z.eq_dec s 0) as [H|H]; [exact H|].
      rewrite floor_int in E by exact H. unfold float, to_float in E.
      destruct (float_of_int _); discriminate.
    + intros ->. reflexivity.
  - apply floor_int.
  - intros Hs Hr. rewrite floor_int by exact Hs.
    rewrite float_exact by exact Hr.
    eauto.
  - apply floor_zero_size.
Qed.

(** X4.  Between ints and for a positive [size], [floor] is monotone in
    [value], as long as the edges have no more than 53 bits. *)
Theorem floor_monotone v1 v2 s o :
  0 < s -> v1 <= v2 ->
  - 2 ^ 53 <= (v1 + o) / s * s - o -> (v2 + o) / s * s - o <= 2 ^ 53 ->
  exists r1 r2,
    floor (Int v1) (Int s) (Int o) = Ok (Float (Finite (inject_Z r1))) /\
    floor (Int v2) (Int s) (Int o) = Ok (Float (Finite (inject_Z r2))) /\
    r1 <= r2.
Proof.
  intros Hs Hv H1 H2.
  assert (Hd : (v1 + o) / s <= (v2 + o) / s)
    by (apply Z.div_le_mono; lia).
  assert (Hr : (v1 + o) / s * s - o <= (v2 + o) / s * s - o) by nia.
  exists ((v1 + o) / s * s - o), ((v2 + o) / s * s - o).
  rewrite !floor_int by lia. rewrite !float_exact by lia. auto.
Qed.

End FloorFacts.

Lemma floor_cell_witness :
  floor (Int 50) (Int 167) default_offset = Ok (Float (Finite (-33))) /\
  -33 <= 50 < -33 + 167 /\ (-33 + 200) mod 167 = 0.
Proof.
  destruct (floor_cell 50 167 200) as (_ & Hb & Hm & He); [lia|].
  split; [apply He; vm_compute; split; discriminate|].
  split; [exact Hb | exact Hm].
Defined.

Lemma floor_monotone_witness :
  exists r1 r2,
    floor (Int (-10)) (Int 100) default_offset =
      Ok (Float (Finite (inject_Z r1))) /\
    floor (Int 120) (Int 100) default_offset =
      Ok (Float (Finite (inject_Z r2))) /\
    r1 <= r2.
Proof.
  apply (floor_monotone (-10) 120 100 200); vm_compute;
    first [reflexivity | discriminate].
Defined.

(** ** More on the class [vector] *)

Lemma float_compare_sym f g :
  float_compare f g = Some Datatypes.Eq ->
  float_compare g f = Some Datatypes.Eq.
Proof.
  destruct f as [p|[]|], g as [q|[]|]; cbn; try discriminate; auto.
  intros E. injection E as E. apply Qeq_alt in E. f_equal.
  apply Qeq_alt. now symmetry.
Qed.

Lemma num_eqb_sym a b : num_eqb a b = num_eqb b a.
Proof.
  unfold num_eqb.
  destruct (float_compare (value_of a) (value_of b)) as [[]|] eqn:E1.
  - now rewrite (float_compare_sym _ _ E1).
  - destruct (float_compare (value_of b) (value_of a)) as [[]|] eqn:E2;
      try reflexivity.
    apply float_compare_sym in E2. congruence.
  - destruct (float_compare (value_of b) (value_of a)) as [[]|] eqn:E2;
      try reflexivity.
    apply float_compare_sym in E2. congruence.
  - destruct (float_compare (value_of b) (value_of a)) as [[]|] eqn:E2;
      try reflexivity.
    apply float_compare_sym in E2. congruence.
Qed.

Lemma num_eqb_Int m n : num_eqb (Int m) (Int n) = (m =? n).
Proof.
  unfold num_eqb, value_of, float_compare, Qcompare.
  cbn [inject_Z Qnum Qden]. rewrite !Z.mul_1_r.
  destruct (Z.eqb_spec m n) as [->|H].
  - now rewrite Z.compare_refl.
  - destruct (Z.compare_spec m n); congruence.
Qed.

Lemma num_neg_involutive a : num_neg (num_neg a) = a.
Proof.
  destruct a as [n|[[n d]|[]|]]; cbn; try reflexivity.
  - now rewrite Z.opp_involutive.
  - unfold Qopp; cbn. now rewrite Z.opp_involutive.
Qed.

Section VectorLaws.

Context {B : Builtins}.

Lemma num_square_neg a : num_square (num_neg a) = num_square a.
Proof.
  destruct a as [n|f]; cbn.
  - now rewrite Z.mul_opp_opp.
  - now rewrite float_square_neg.
Qed.

(** The magnitude: the squares of the stored components, their sum,
    its root. *)
Lemma abs_value v :
  fst (__abs__ v) =
  and_then (num_square (_x v)) (fun a2 =>
  and_then (num_square (_y v)) (fun b2 =>
  and_then (num_add a2 b2) (fun s => Ok (pow_half s)))).
Proof.
  unfold __abs__, bind, getattr, lift, ret. cbn.
  destruct (num_square (_x v)); cbn; [|reflexivity].
  destruct (num_square (_y v)); cbn; [|reflexivity].
  destruct (num_add _ _); reflexivity.
Qed.

(** An operator between ints: what it returns. *)
Lemma int_operator_result msg op f other v :
  (forall m n, op (Int m) (Int n) = Ok (Int (f m n))) ->
  forall a b, _x v = Int a -> _y v = Int b ->
  forall c d, operand_x other = Int c -> operand_y other = Int d ->
  fst (on_copy (augmented msg op other) v) =
  Ok (__init__ (Int (f a c)) (Int (f b d))).
Proof.
  intros Hop a b Hx Hy c d Hc Hd. rewrite on_copy_result.
  rewrite augmented_unfrozen by reflexivity. cbn [_x _y __init__].
  now rewrite Hx, Hy, Hc, Hd, !Hop.
Qed.

Lemma integral_operand other :
  integral other = true ->
  exists c d, operand_x other = Int c /\ operand_y other = Int d.
Proof.
  destruct other as [[[c|] [d|] h]|[c|]]; try discriminate; cbn; eauto.
Qed.

Lemma eq_vectors v w :
  fst (__eq__ (PyVector w) v) =
  Ok (PyBool (num_eqb (round9 (_x v)) (round9 (_x w)) &&
              num_eqb (round9 (_y v)) (round9 (_y w)))).
Proof.
  unfold __eq__, x, y, bind, getattr, ret, on_object. cbn.
  now destruct (num_eqb (round9 (_x v)) (round9 (_x w))).
Qed.

Lemma ne_vectors v w :
  fst (__ne__ (PyVector w) v) =
  Ok (PyBool (num_neb (round9 (_x v)) (round9 (_x w)) &&
              num_neb (round9 (_y v)) (round9 (_y w)))).
Proof.
  unfold __ne__, x, y, bind, getattr, ret, on_object. cbn.
  now destruct (num_neb (round9 (_x v)) (round9 (_x w))).
Qed.

(** X5.  Indexing succeeds exactly on the indices from 0 to
    [len(v) - 1]: [v[0]] is [v.x] and [v[1]] is [v.y]; every other
    index, the negative ones too, raises [IndexError].  The vector is
    left as it was. *)
Theorem getitem_within_len v i :
  exists n,
    __len__ v = (Ok n, v) /\
    (0 <= i < n ->
     exists a, __getitem__ i v = (Ok a, v) /\
       a = round9 (if i =? 0 then _x v else _y v)) /\
    (~ (0 <= i < n) -> __getitem__ i v = (Raise IndexError, v)).
Proof.
  exists 2. split; [reflexivity|]. unfold __getitem__. split.
  - intros Hi. assert (i = 0 \/ i = 1) as [-> | ->] by lia;
      eexists; split; reflexivity.
  - intros Hi. destruct (Z.eqb_spec i 0); [lia|].
    destruct (Z.eqb_spec i 1); [lia|]. reflexivity.
Qed.

(** X6.  Addition and multiplication of two vectors with int
    components commute: [v + w] and [w + v] are returned and compare
    equal, and so do [v * w] and [w * v], whether the operands are
    frozen or not. *)
Theorem add_and_mul_commute v w :
  is_int (_x v) = true -> is_int (_y v) = true ->
  is_int (_x w) = true -> is_int (_y w) = true ->
  exists r1 r2 p1 p2,
    fst (__add__ (Vec w) v) = Ok r1 /\ fst (__add__ (Vec v) w) = Ok r2 /\
    fst (__eq__ (PyVector r2) r1) = Ok (PyBool true) /\
    fst (__mul__ (Vec w) v) = Ok p1 /\ fst (__mul__ (Vec v) w) = Ok p2 /\
    fst (__eq__ (PyVector p2) p1) = Ok (PyBool true).
Proof.
  intros Hvx Hvy Hwx Hwy.
  destruct (is_int_Int _ Hvx) as [a Ea], (is_int_Int _ Hvy) as [b Eb].
  destruct (is_int_Int _ Hwx) as [c Ec], (is_int_Int _ Hwy) as [d Ed].
  exists (__init__ (Int (a + c)) (Int (b + d))),
    (__init__ (Int (c + a)) (Int (d + b))),
    (__init__ (Int (a * c)) (Int (b * d))),
    (__init__ (Int (c * a)) (Int (d * b))).
  unfold __add__, __mul__, __iadd__, __imul__.
  repeat split;
    try (apply int_operator_result; auto; fail).
  - rewrite eq_vectors. cbn [_x _y __init__ round9].
    rewrite !num_eqb_Int, (Z.add_comm c a), (Z.add_comm d b), !Z.eqb_refl.
    reflexivity.
  - rewrite eq_vectors. cbn [_x _y __init__ round9].
    rewrite !num_eqb_Int, (Z.mul_comm c a), (Z.mul_comm d b), !Z.eqb_refl.
    reflexivity.
Qed.

(** X7.  On integers adding and then subtracting the same operand, a
    vector or a scalar, gives back the components exactly. *)
Theorem integer_add_sub_round_trip v other :
  is_int (_x v) = true -> is_int (_y v) = true -> integral other = true ->
  exists r,
    fst (__add__ other v) = Ok r /\
    fst (__sub__ other r) = Ok (__init__ (_x v) (_y v)).
Proof.
  intros Hx Hy Ho.
  destruct (is_int_Int _ Hx) as [a Ea], (is_int_Int _ Hy) as [b Eb].
  destruct (integral_operand other Ho) as (c & d & Ec & Ed).
  exists (__init__ (Int (a + c)) (Int (b + d))).
  unfold __add__, __sub__, __iadd__, __isub__. split.
  - apply int_operator_result; auto.
  - rewrite (int_operator_result _ num_sub Z.sub other
               (__init__ (Int (a + c)) (Int (b + d)))
               (fun _ _ => eq_refl) (a + c) (b + d) eq_refl eq_refl
               c d Ec Ed).
    now rewrite Ea, Eb, !Z.add_simpl_r.
Qed.

(** X8.  Negating twice gives back the components exactly, in a
    vector that is not frozen, and negating keeps the magnitude. *)
Theorem negation_involutive v :
  exists r1 r2,
    fst (__neg__ v) = Ok r1 /\ fst (__neg__ r1) = Ok r2 /\
    r2 = __init__ (_x v) (_y v) /\
    fst (__abs__ r1) = fst (__abs__ v).
Proof.
  do 2 eexists. split; [now rewrite negation_result|].
  split; [now rewrite negation_result|].
  cbn [_x _y __init__]. split.
  - now rewrite !num_neg_involutive.
  - rewrite !abs_value. cbn [_x _y __init__].
    now rewrite !num_square_neg.
Qed.

(** X9.  [==] and [!=] between vectors are symmetric, and when [!=]
    answers true [==] answers false. *)
Theorem eq_symmetric_ne_sound v w :
  fst (__eq__ (PyVector w) v) = fst (__eq__ (PyVector v) w) /\
  fst (__ne__ (PyVector w) v) = fst (__ne__ (PyVector v) w) /\
  (fst (__ne__ (PyVector w) v) = Ok (PyBool true) ->
   fst (__eq__ (PyVector w) v) = Ok (PyBool false)).
Proof.
  rewrite !eq_vectors, !ne_vectors. unfold num_neb.
  rewrite (num_eqb_sym (round9 (_x w))), (num_eqb_sym (round9 (_y w))).
  split; [reflexivity|]. split; [reflexivity|].
  destruct (num_eqb (round9 (_x v)) (round9 (_x w))); cbn;
    [discriminate | reflexivity].
Qed.

(** X10.  A division in place that fails on an unfrozen vector is not
    undone: when the first division fails the vector is left as it
    was, and when the first returns and the second fails [_x] holds the
    quotient already and [_y] is as it was.  So a vector of ints divided
    by a vector whose second component alone is the int zero keeps the
    first quotient, and divided by the scalar zero it is left as it
    was. *)
Theorem division_failure_keeps_first_write v other :
  is_hashed v = false ->
  (forall e, num_truediv (_x v) (operand_x other) = Raise e ->
     __itruediv__ other v = (Raise e, v)) /\
  (forall q e, num_truediv (_x v) (operand_x other) = Ok q ->
     num_truediv (_y v) (operand_y other) = Raise e ->
     __itruediv__ other v = (Raise e, mkvector q (_y v) None)) /\
  (forall a b m q,
     _x v = Int a -> _y v = Int b -> m <> 0 ->
     int_truediv a m = Returns q ->
     __itruediv__ (Vec (__init__ (Int m) (Int 0))) v =
     (Raise ZeroDivisionError, mkvector (Float q) (Int b) None)) /\
  (is_int (_x v) = true ->
   __itruediv__ (Scalar (Int 0)) v = (Raise ZeroDivisionError, v)).
Proof.
  intros Hv. unfold __itruediv__. split; [|split; [|split]].
  - intros e E. rewrite augmented_unfrozen by exact Hv. now rewrite E.
  - intros q e E1 E2. rewrite augmented_unfrozen by exact Hv.
    now rewrite E1, E2.
  - intros a b m q Ha Eb Hm Eq. rewrite augmented_unfrozen by exact Hv.
    cbn [operand_x operand_y _x _y __init__]. rewrite Ha, Eb.
    cbn [num_truediv]. apply Z.eqb_neq in Hm. rewrite Hm, Eq. reflexivity.
  - intros Hx. destruct (is_int_Int _ Hx) as [a Ea].
    rewrite augmented_unfrozen by exact Hv.
    cbn [operand_x]. now rewrite Ea.
Qed.

Lemma perform_coherent c v : coherent v -> coherent (snd (perform c v)).
Proof.
  intros Hv. destruct (_hash v) as [h|] eqn:Eh.
  - rewrite frozen_state_fixed; [exact Hv|]. unfold is_hashed. now rewrite Eh.
  - destruct (perform_hash c v) as [E|[-> _]].
    + unfold coherent. now rewrite E, Eh.
    + destruct v as [a b g]. cbn in Eh. subst g. reflexivity.
Qed.

(** X11.  Whatever calls were made on a vector since it was built,
    [hash] returns the hash of the pair of its components as they read
    now: the cached value is never out of date. *)
Theorem hash_of_current_components a b cs :
  let v := perform_all cs (__init__ a b) in
  fst (__hash__ v) = Ok (hash_pair (round9 (_x v)) (round9 (_y v))).
Proof.
  intros v.
  assert (Hv : coherent v).
  { subst v. generalize (__init__ a b), (I : coherent (__init__ a b)).
    induction cs as [|c cs IH]; intros u Hu; [exact Hu|].
    cbn [perform_all]. apply IH, perform_coherent, Hu. }
  unfold coherent in Hv. destruct v as [p q [h|]]; cbn in *.
  - now subst h.
  - reflexivity.
Qed.

(** X12.  Once [hash(v)] was called, every later [hash(v)] returns the
    same value and [v.x], [v.y] read the same, whatever calls are made
    in between. *)
Theorem hash_is_stable v cs :
  let v1 := snd (__hash__ v) in
  let v2 := perform_all cs v1 in
  fst (__hash__ v2) = fst (__hash__ v) /\
  fst (x v2) = fst (x v) /\ fst (y v2) = fst (y v).
Proof.
  intros v1 v2. subst v2. rewrite perform_all_frozen by apply hash_freezes.
  subst v1. destruct v as [a b [h|]]; repeat split; reflexivity.
Qed.

End VectorLaws.

Lemma getitem_within_len_witness :
  let v := __init__ (Int 3) (Int 4) in
  (exists a, __getitem__ 1 v = (Ok a, v) /\ a = Int 4) /\
  __getitem__ 2 v = (Raise IndexError, v) /\
  __getitem__ (-1) v = (Raise IndexError, v).
Proof.
  intros v.
  destruct (getitem_within_len v 1) as (n1 & E1 & Hin1 & _).
  destruct (getitem_within_len v 2) as (n2 & E2 & _ & Hout2).
  destruct (getitem_within_len v (-1)) as (n3 & E3 & _ & Hout3).
  injection E1 as <-. injection E2 as <-. injection E3 as <-.
  split; [|split].
  - apply Hin1. lia.
  - apply Hout2. lia.
  - apply Hout3. lia.
Defined.

Lemma add_and_mul_commute_witness :
  exists r1 r2 p1 p2,
    fst (__add__ (Vec (__init__ (Int 3) (Int 4))) (__init__ (Int 1) (Int 2)))
      = Ok r1 /\
    fst (__add__ (Vec (__init__ (Int 1) (Int 2))) (__init__ (Int 3) (Int 4)))
      = Ok r2 /\
    fst (__eq__ (PyVector r2) r1) = Ok (PyBool true) /\
    fst (__mul__ (Vec (__init__ (Int 3) (Int 4))) (__init__ (Int 1) (Int 2)))
      = Ok p1 /\
    fst (__mul__ (Vec (__init__ (Int 1) (Int 2))) (__init__ (Int 3) (Int 4)))
      = Ok p2 /\
    fst (__eq__ (PyVector p2) p1) = Ok (PyBool true).
Proof.
  apply (add_and_mul_commute (__init__ (Int 1) (Int 2))
           (__init__ (Int 3) (Int 4))); reflexivity.
Defined.

Lemma integer_add_sub_round_trip_witness :
  exists r,
    fst (__add__ (Scalar (Int 1)) (__init__ (Int 1) (Int 2))) = Ok r /\
    fst (__sub__ (Scalar (Int 1)) r) = Ok (__init__ (Int 1) (Int 2)).
Proof.
  apply (integer_add_sub_round_trip (__init__ (Int 1) (Int 2))
           (Scalar (Int 1))); reflexivity.
Defined.

Lemma eq_symmetric_ne_sound_witness :
  fst (__eq__ (PyVector (__init__ (Int 3) (Int 4))) (__init__ (Int 1) (Int 2)))
  = Ok (PyBool false).
Proof.
  apply (eq_symmetric_ne_sound (__init__ (Int 1) (Int 2))
           (__init__ (Int 3) (Int 4))).
  reflexivity.
Defined.

Lemma division_failure_keeps_first_write_witness :
  __itruediv__ (Vec (__init__ (Int 2) (Int 0))) (__init__ (Int 2) (Int 4)) =
  (Raise ZeroDivisionError, mkvector (Float (Finite 1)) (Int 4) None).
Proof.
  destruct (division_failure_keeps_first_write (__init__ (Int 2) (Int 4))
              (Vec (__init__ (Int 2) (Int 0))) eq_refl)
    as (_ & _ & H & _).
  apply (H 2 4 2 (Finite 1)); try reflexivity. discriminate.
Defined.

(** ** More on the game loop *)

Section MoreGameFacts.

Context {builtins : Builtins}.

Lemma deliver_step d e b h t s :
  deliver d e (world_of b h t s) = (Ok tt, step_board d e b h t s).
Proof.
  destruct e as [cx cy|]; cbn [deliver step_board].
  - destruct h; erewrite bind_Ok by reflexivity; cbn [onclick world_of].
    + apply start_world_of.
    + apply tap_world_of.
  - destruct t as [|ms rest].
    + erewrite bind_Ok by reflexivity. reflexivity.
    + erewrite bind_Ok by apply pop_timer_due. cbv beta iota.
      apply draw_world_of.
Qed.

(** A property of integer worlds that every event keeps holds at the
    end of every session. *)
Lemma run_invariant
    (Q : board -> handler -> list Z -> list turtle_call -> Prop) :
  (forall d e b h t s, Q b h t s ->
     exists b' h' t' s',
       step_board d e b h t s = world_of b' h' t' s' /\ Q b' h' t' s') ->
  forall inputs b h t s, Q b h t s ->
    exists b' h' t' s',
      run inputs (world_of b h t s) = (Ok tt, world_of b' h' t' s') /\
      Q b' h' t' s'.
Proof.
  intros Hstep. induction inputs as [|[d e] rest IH]; intros b h t s HQ.
  - exists b, h, t, s. split; [reflexivity | exact HQ].
  - destruct (Hstep d e b h t s HQ) as (b1 & h1 & t1 & s1 & E & HQ1).
    rewrite (run_cons d e rest _ (step_board d e b h t s))
      by apply deliver_step.
    rewrite E. now apply IH.
Qed.

Lemma bird_track inputs :
  forall b h t s,
    exists b' h' t' s',
      run inputs (world_of b h t s) = (Ok tt, world_of b' h' t' s') /\
      bird_at b' =
        (fst (bird_at b),
         snd (bird_at b)
         + 30 * tap_count inputs (world_of b h t s)
         - 5 * tick_count inputs (world_of b h t s)).
Proof.
  induction inputs as [|[d e] rest IH]; intros b h t s.
  - exists b, h, t, s. split; [reflexivity|]. cbn [tap_count tick_count].
    destruct (bird_at b). cbn. f_equal. lia.
  - rewrite (run_cons d e rest _ (step_board d e b h t s))
      by apply deliver_step.
    cbn [tap_count tick_count]. rewrite deliver_step. cbn [snd].
    assert (Hs : exists b1 h1 t1 s1,
      step_board d e b h t s = world_of b1 h1 t1 s1 /\
      bird_at b1 =
        (fst (bird_at b),
         snd (bird_at b)
         + 30 * (if taps e (world_of b h t s) then 1 else 0)
         - 5 * (if ticks e (world_of b h t s) then 1 else 0))).
    { destruct e as [cx cy|];
        cbn [step_board taps ticks onclick timers world_of].
      - destruct h; do 4 eexists; (split; [reflexivity|]);
          cbn [bird_at ticked moved]; unfold fall, rise; f_equal; lia.
      - destruct t; do 4 eexists; (split; [reflexivity|]);
          cbn [bird_at ticked moved]; unfold fall;
          destruct (bird_at b); cbn [fst snd]; f_equal; lia. }
    destruct Hs as (b1 & h1 & t1 & s1 & -> & Hb1).
    destruct (IH b1 h1 t1 s1) as (b' & h' & t' & s' & Hr & Hb').
    exists b', h', t', s'. split; [exact Hr|].
    rewrite Hb', Hb1. cbn [fst snd]. f_equal. lia.
Qed.

Lemma first_tick_safe d : safe (moved d (mkboard (0, 0) [])) = true.
Proof.
  unfold safe, moved, spawn. cbn [bird_at balls_at map app].
  destruct (roll d =? 0); cbn [forallb]; [|reflexivity].
  rewrite !andb_true_iff, !Z.ltb_lt. unfold squared_distance, fall.
  cbn [fst snd]. repeat split; try lia; nia.
Qed.

Lemma safe_inside b : safe b = true -> -200 < snd (bird_at b).
Proof.
  unfold safe. rewrite !andb_true_iff, !Z.ltb_lt. tauto.
Qed.

Lemma fall_invariant ds :
  forall n b s,
    snd (bird_at b) = -5 * n -> -200 < snd (bird_at b) ->
    exists b' t' s',
      run (map (fun d => (d, timeout)) ds) (world_of b bound_tap [50] s) =
        (Ok tt, world_of b' bound_tap t' s') /\
      (t' = [] \/
       (snd (bird_at b') = -5 * (n + Z.of_nat (List.length ds)) /\
        -200 < snd (bird_at b'))).
Proof.
  induction ds as [|d ds IH]; intros n b s Hy Hin.
  - exists b, [50], s. split; [reflexivity|]. right. cbn [List.length].
    split; [lia|exact Hin].
  - cbn [map].
    rewrite (run_cons d timeout _ _
               (step_board d timeout b bound_tap [50] s))
      by apply deliver_step.
    cbn [step_board app]. destruct (safe (moved d b)) eqn:Es.
    + destruct (IH (n + 1) (ticked d b) (s ++ frame true (ticked d b)))
        as (b' & t' & s' & Hr & Ht).
      * cbn [ticked moved bird_at]. unfold fall. cbn [snd]. lia.
      * apply safe_inside in Es. exact Es.
      * exists b', t', s'. split; [exact Hr|].
        destruct Ht as [Ht|[Hb Hi]]; [left; exact Ht|right].
        split; [|exact Hi]. rewrite Hb. cbn [List.length]. lia.
    + destruct (ended_forever (map (fun d => (d, timeout)) ds) (ticked d b)
                  (s ++ frame false (ticked d b))) as (b' & Hr & _).
      exists b', [], (s ++ frame false (ticked d b)). split; [exact Hr|].
      left. reflexivity.
Qed.

Lemma in_frame alive b c :
  In (dot 10 c) (frame alive b) <-> c = (if alive then green else red).
Proof.
  unfold frame. rewrite !in_app_iff, in_flat_map. cbn [In]. split.
  - intros [[H|[]]|[(p & _ & [H|[H|[]]])|[H|[H|[H|[]]]]]]; try discriminate.
    now injection H as <-.
  - intros ->. right. right. right. left. reflexivity.
Qed.

Lemma increasing_cons a l :
  increasing (a :: l) <->
  (match l with b :: _ => a < b | [] => True end) /\ increasing l.
Proof. destruct l; cbn; tauto. Qed.

Lemma increasing_drift l :
  increasing (map fst l) -> increasing (map fst (map drift l)).
Proof.
  induction l as [|p l IH]; [trivial|].
  cbn [map]. rewrite !increasing_cons. intros [H1 H2]. split; [|now apply IH].
  destruct l as [|q l]; [trivial|]. cbn in *. lia.
Qed.

Lemma increasing_snoc l c :
  increasing l -> Forall (fun a => a < c) l -> increasing (l ++ [c]).
Proof.
  induction l as [|a l IH]; intros Hl Hc; [exact I|].
  cbn [app]. apply increasing_cons in Hl. destruct Hl as [H1 H2].
  apply increasing_cons. inversion Hc as [|? ? Ha Hc']; subst.
  split; [|now apply IH].
  destruct l as [|b l]; cbn; [exact Ha | exact H1].
Qed.

Lemma increasing_tl l : increasing l -> increasing (tl l).
Proof. destruct l as [|a l]; [trivial|]. rewrite increasing_cons. tauto. Qed.

Lemma tick_keeps_order d l :
  increasing (map fst l) -> Forall (fun p => fst p <= 199) l ->
  let l' := evict_oldest (map drift l ++ spawn d) in
  increasing (map fst l') /\ Forall (fun p => fst p <= 199) l'.
Proof.
  intros Hi Hb l'.
  assert (H1 : increasing (map fst (map drift l ++ spawn d))).
  { rewrite map_app. unfold spawn. destruct (roll d =? 0); cbn [map].
    - apply increasing_snoc; [now apply increasing_drift|].
      rewrite !Forall_map. revert Hb. apply Forall_impl.
      intros p Hp. cbn. lia.
    - rewrite app_nil_r. now apply increasing_drift. }
  assert (H2 : Forall (fun p => fst p <= 199) (map drift l ++ spawn d)).
  { apply Forall_app. split.
    - rewrite Forall_map. revert Hb. apply Forall_impl. intros p Hp. cbn. lia.
    - unfold spawn. destruct (roll d =? 0); repeat constructor. cbn. lia. }
  subst l'. unfold evict_oldest.
  destruct (30 <? _); [|now split].
  split.
  - destruct (map drift l ++ spawn d) as [|p k]; [exact I|].
    cbn [tl map] in *. apply increasing_cons in H1. tauto.
  - destruct (map drift l ++ spawn d); [constructor|].
    now inversion H2.
Qed.

(** X13.  No session raises, and no vector of the game is ever
    hashed: the frozen error cannot occur in play. *)
Theorem game_never_raises inputs :
  exists w,
    run inputs initial = (Ok tt, w) /\
    is_hashed (bird w) = false /\
    Forall (fun ball => is_hashed ball = false) (balls w).
Proof.
  destruct (reachable_world_of inputs) as (b & h & t & s & E).
  eexists. split; [exact E|]. split; [reflexivity|].
  cbn [balls world_of]. apply Forall_forall. intros v Hv.
  apply in_map_iff in Hv. destruct Hv as [p [<- _]]. reflexivity.
Qed.

(** X14.  At most one tick is pending at any time, with a delay of
    50 ms: before the first click the world is the initial one, and
    afterwards [tap] is bound and the timers are none or one. *)
Theorem at_most_one_tick_pending inputs :
  exists w,
    run inputs initial = (Ok tt, w) /\
    (w = initial \/
     (onclick w = bound_tap /\ (timers w = [] \/ timers w = [50]))).
Proof.
  rewrite initial_world_of.
  destruct (run_invariant
    (fun b h t s =>
       (b = mkboard (0, 0) [] /\ h = bound_start /\ t = [] /\ s = []) \/
       (h = bound_tap /\ (t = [] \/ t = [50])))
    ) with (inputs := inputs) (b := mkboard (0, 0) []) (h := bound_start)
           (t := @nil Z) (s := @nil turtle_call)
    as (b & h & t & s & E & HQ).
  - intros d e b h t s [(-> & -> & -> & ->)|[-> Ht]].
    + destruct e as [cx cy|]; cbn [step_board]; do 4 eexists;
        (split; [reflexivity|]).
      * right. split; [reflexivity|].
        destruct (safe _); cbn; auto.
      * left. auto.
    + destruct e as [cx cy|]; cbn [step_board].
      * do 4 eexists. split; [reflexivity|]. right. auto.
      * destruct Ht as [-> | ->]; do 4 eexists; (split; [reflexivity|]).
        -- right. auto.
        -- right. split; [reflexivity|]. destruct (safe _); cbn; auto.
  - left. auto.
  - eexists. split; [exact E|].
    destruct HQ as [(-> & -> & -> & ->)|[-> Ht]]; [left; reflexivity|].
    right. cbn. auto.
Qed.

(** X15.  The bird never leaves the vertical axis, and its height is
    thirty times the taps less five times the ticks of the session. *)
Theorem bird_height_counts_taps_and_ticks inputs :
  exists w,
    run inputs initial = (Ok tt, w) /\
    bird w =
      __init__ (Int 0)
        (Int (30 * tap_count inputs initial - 5 * tick_count inputs initial)).
Proof.
  rewrite initial_world_of.
  destruct (bird_track inputs (mkboard (0, 0) []) bound_start [] [])
    as (b & h & t & s & E & Hb).
  eexists. split; [exact E|]. cbn [bird world_of]. unfold vector_at.
  rewrite Hb. reflexivity.
Qed.

(** X16.  The first click always starts the loop: whatever is drawn
    at random, the first tick finds the bird alive at (0, -5) and
    schedules the next one. *)
Theorem first_click_starts_the_loop d cx cy :
  exists w,
    deliver d (click cx cy) initial = (Ok tt, w) /\
    running w /\ timers w = [50] /\ bird w = vector_at (0, -5).
Proof.
  rewrite initial_world_of, deliver_step. eexists. split; [reflexivity|].
  cbn [step_board]. rewrite first_tick_safe. unfold running.
  cbn. repeat split; discriminate.
Qed.

(** X17.  A player who clicks once and then leaves the game alone has
    lost after forty ticks at the latest, whatever is drawn at
    random. *)
Theorem left_alone_the_game_ends d0 ds :
  (39 <= List.length ds)%nat ->
  exists w, run (left_alone d0 ds) initial = (Ok tt, w) /\ ended w.
Proof.
  intros Hlen. unfold left_alone. rewrite initial_world_of.
  rewrite (run_cons d0 _ _ _
             (step_board d0 (click (Int 0) (Int 0)) (mkboard (0, 0) [])
                bound_start [] []))
    by apply deliver_step.
  cbn [step_board app]. rewrite first_tick_safe.
  destruct (fall_invariant ds 1 (ticked d0 (mkboard (0, 0) []))
              (frame true (ticked d0 (mkboard (0, 0) []))))
    as (b' & t' & s' & Hr & Ht); [reflexivity | reflexivity |].
  eexists. split; [exact Hr|]. unfold ended. cbn [onclick timers world_of].
  split; [reflexivity|]. destruct Ht as [Ht|[Hb Hi]]; [exact Ht|lia].
Qed.

(** X18.  A tick draws one frame, of the balls it keeps and then the
    bird; the bird is red exactly when no further tick is scheduled and
    green exactly when one is. *)
Theorem red_bird_on_the_last_frame d b h t s :
  exists alive w',
    draw d (world_of b h t s) = (Ok tt, w') /\
    screen w' = s ++ frame alive (ticked d b) /\
    timers w' = t ++ (if alive then [50] else []) /\
    (In (dot 10 red) (frame alive (ticked d b)) <-> alive = false) /\
    (In (dot 10 green) (frame alive (ticked d b)) <-> alive = true) /\
    List.length (frame alive (ticked d b)) =
      (2 * List.length (balls_at (ticked d b)) + 4)%nat.
Proof.
  exists (safe (moved d b)). eexists. rewrite draw_world_of.
  split; [reflexivity|]. split; [reflexivity|]. split; [reflexivity|].
  rewrite !in_frame. split; [|split].
  - destruct (safe (moved d b)); split; congruence.
  - destruct (safe (moved d b)); split; congruence.
  - unfold frame. rewrite !length_app. cbn [List.length].
    assert (E : forall l : list (Z * Z),
      List.length
        (flat_map (fun p => [goto (Int (fst p)) (Int (snd p)); dot 20 black]) l)
      = (2 * List.length l)%nat).
    { induction l as [|p l IH]; cbn [flat_map List.length app]; lia. }
    rewrite E. lia.
Qed.

(** X19.  The balls are always listed from left to right: their
    abscissas are integers in strictly increasing order, none beyond
    199, so the ball at index 0 is the leftmost. *)
Theorem balls_from_left_to_right inputs :
  exists w,
    run inputs initial = (Ok tt, w) /\
    exists xs,
      map _x (balls w) = map Int xs /\ increasing xs /\
      Forall (fun a => a <= 199) xs.
Proof.
  rewrite initial_world_of.
  destruct (run_invariant
    (fun b h t s =>
       increasing (map fst (balls_at b)) /\
       Forall (fun p => fst p <= 199) (balls_at b)))
    with (inputs := inputs) (b := mkboard (0, 0) []) (h := bound_start)
         (t := @nil Z) (s := @nil turtle_call)
    as (b & h & t & s & E & Hi & Hb).
  - intros d e b h t s [Hi Hb].
    pose proof (tick_keeps_order d (balls_at b) Hi Hb) as Ht.
    destruct e as [cx cy|]; cbn [step_board];
      [destruct h | destruct t]; do 4 eexists;
      (split; [reflexivity|]); cbn [balls_at ticked moved]; auto.
  - split; constructor.
  - eexists. split; [exact E|]. exists (map fst (balls_at b)).
    cbn [balls world_of]. rewrite !map_map. split; [reflexivity|].
    split; [exact Hi|]. now rewrite Forall_map.
Qed.

End MoreGameFacts.

Lemma left_alone_the_game_ends_witness :
  exists w,
    run (left_alone quiet (repeat quiet 39)) initial = (Ok tt, w) /\ ended w.
Proof.
  apply (left_alone_the_game_ends quiet (repeat quiet 39)).
  rewrite repeat_length. lia.
Defined.
